(** * Shop Haul gallery: caching and progressive disclosure

    A shallow embedding of the serving path of the Shop Haul gallery
    (server: [server.js]; client: the gallery script) together with the
    properties of its caches, its provider chain and its paging state.

    Conventions of the embedding.
    - JavaScript strings are [string]s (sequences of 8-bit code units).
    - Timestamps and ages are integers ([Z], milliseconds), as
      [Date.now()] returns them.
    - Built-ins whose behaviour is fixed by the host and not by this
      repository ([localeCompare], [encodeURIComponent], [JSON.parse],
      the [String(.)] and [Number(.)] coercions of arbitrary values) are
      section variables; every theorem holds for whatever they are.
    - Asynchronous code runs on a single-threaded event loop, so it is a
      transition system whose steps are the synchronous stretches between
      two suspension points. *)

From Stdlib Require Import ZArith Lia Bool Ascii String List Sorted Permutation.
From Stdlib Require Import DecimalString.
From stdpp Require Import base option list strings gmap.

Import ListNotations.
Local Open Scope string_scope.
Local Open Scope Z_scope.

(* ===================================================================== *)
(** * JavaScript built-ins used by the program *)
(* ===================================================================== *)

Module JS.

(** ** Strings *)

(** WhiteSpace and LineTerminator code units (the ones [trim] strips). *)
Definition isWhiteSpace (c : ascii) : bool :=
  let n := N_of_ascii c in
  ((n =? 9) || (n =? 10) || (n =? 11) || (n =? 12) || (n =? 13)
   || (n =? 32) || (n =? 160))%N.

Fixpoint trimStartL (l : list ascii) : list ascii :=
  match l with
  | [] => []
  | c :: r => if isWhiteSpace c then trimStartL r else l
  end.

Definition trimEndL (l : list ascii) : list ascii :=
  rev (trimStartL (rev l)).

(** [String.prototype.trim] *)
Definition trim (s : string) : string :=
  string_of_list_ascii (trimEndL (trimStartL (list_ascii_of_string s))).

(** A string that is empty or made of white space only. *)
Definition whitespaceOnly (s : string) : bool :=
  forallb isWhiteSpace (list_ascii_of_string s).

Definition lowerChar (c : ascii) : ascii :=
  let n := N_of_ascii c in
  if ((65 <=? n) && (n <=? 90))%N then ascii_of_N (n + 32)
  else if ((192 <=? n) && (n <=? 222) && negb (n =? 215))%N
       then ascii_of_N (n + 32)
  else c.

(** [String.prototype.toLowerCase] *)
Fixpoint toLowerCase (s : string) : string :=
  match s with
  | EmptyString => EmptyString
  | String c r => String (lowerChar c) (toLowerCase r)
  end.

(** [s.startsWith(p)] *)
Definition startsWith (p s : string) : bool := String.prefix p s.

(** [s.includes(q)]: [q] occurs in [s] as a substring. *)
Fixpoint includes (q s : string) : bool :=
  String.prefix q s ||
  match s with
  | EmptyString => false
  | String _ r => includes q r
  end.

(** A string is falsy exactly when it is empty. *)
Definition truthyStr (s : string) : bool := negb (String.eqb s "").

(** Decimal rendering of a number inside a template literal. *)
Definition showNat (n : nat) : string := NilZero.string_of_uint (Nat.to_uint n).

(** ** Exceptions *)

(** What evaluating an expression, or awaiting a promise, ends in: a value,
    or a thrown error (kept as the message the program reads off it with
    [error instanceof Error ? error.message : String(error)]). *)
Inductive Outcome (A : Type) : Type :=
| Return (a : A)
| Throw (message : string).

Arguments Return {A} a.
Arguments Throw {A} message.

#[global] Instance Outcome_ret : MRet Outcome := fun _ a => Return a.
#[global] Instance Outcome_bind : MBind Outcome := fun _ _ f m =>
  match m with
  | Return a => f a
  | Throw e => Throw e
  end.

#[global] Instance Outcome_fmap : FMap Outcome := fun _ _ f m =>
  match m with
  | Return a => Return (f a)
  | Throw e => Throw e
  end.

(** [try { body } catch { return fallback }] *)
Definition tryCatch {A} (body : Outcome A) (handler : string -> Outcome A) : Outcome A :=
  match body with
  | Return a => Return a
  | Throw e => handler e
  end.

(** ** Arrays *)

Section Sort.
Context {A : Type} (cmp : A -> A -> Z).

(** [Array.prototype.sort(cmp)] is a stable sort: [b] is placed after [a]
    exactly when [cmp a b > 0] forces it.  For a consistent comparator the
    result of any stable sort is the one computed here. *)
Fixpoint insertSorted (x : A) (l : list A) : list A :=
  match l with
  | [] => [x]
  | y :: r => if cmp x y >? 0 then y :: insertSorted x r else x :: l
  end.

Fixpoint sort (l : list A) : list A :=
  match l with
  | [] => []
  | x :: r => insertSorted x (sort r)
  end.

(** The order a comparator asks for: [a] may stand before [b]. *)
Definition before (a b : A) : Prop := cmp a b <= 0.

(** Elements the comparator does not tell apart from [k]. *)
Definition tied (k y : A) : bool := Z.eqb (cmp k y) 0.

(** A consistent comparator (ECMAScript, Array.prototype.sort): swapping
    the arguments flips the sign, and [before] is transitive. *)
Definition consistent : Prop :=
  (forall a b, Z.sgn (cmp b a) = - Z.sgn (cmp a b)) /\
  (forall a b c, cmp a b <= 0 -> cmp b c <= 0 -> cmp a c <= 0).

End Sort.

(** Comparison by code units: one consistent comparator, at which the
    statements made for any [localeCompare] can be evaluated. *)
Fixpoint ordinalCompare (a b : string) : Z :=
  match a, b with
  | EmptyString, EmptyString => 0
  | EmptyString, String _ _ => -1
  | String _ _, EmptyString => 1
  | String x a', String y b' =>
      let d := Z.of_N (N_of_ascii x) - Z.of_N (N_of_ascii y) in
      if Z.eqb d 0 then ordinalCompare a' b' else d
  end.

(** [Array.from(new Set(l))]: the first occurrence of every element, in
    insertion order. *)
Fixpoint uniqFrom (seen l : list string) : list string :=
  match l with
  | [] => []
  | x :: r =>
      if existsb (String.eqb x) seen then uniqFrom seen r
      else x :: uniqFrom (x :: seen) r
  end.

Definition uniq (l : list string) : list string := uniqFrom [] l.

(** ** Facts about the built-ins *)

Section SortFacts.
Context {A : Type} (cmp : A -> A -> Z).

Lemma insertSorted_perm x l : Permutation (insertSorted cmp x l) (x :: l).
Proof.
  induction l as [|y r IH]; simpl; [reflexivity|].
  destruct (cmp x y >? 0); [|reflexivity].
  rewrite IH. apply perm_swap.
Qed.

Lemma sort_perm l : Permutation (sort cmp l) l.
Proof.
  induction l as [|x r IH]; simpl; [constructor|].
  rewrite insertSorted_perm. now constructor.
Qed.

Lemma sort_length l : length (sort cmp l) = length l.
Proof. apply Permutation_length, sort_perm. Qed.

Lemma insertSorted_sorted x l :
  consistent cmp ->
  StronglySorted (before cmp) l ->
  StronglySorted (before cmp) (insertSorted cmp x l).
Proof.
  intros [Hflip Htrans]. induction 1 as [|y r Hs IH Hall]; simpl.
  - repeat constructor.
  - destruct (cmp x y >? 0) eqn:E.
    + constructor; [exact IH|].
      eapply Permutation_Forall; [symmetry; apply insertSorted_perm|].
      constructor; [|exact Hall].
      unfold before. specialize (Hflip x y). lia.
    + constructor; [constructor; assumption|].
      assert (Hxy : cmp x y <= 0) by lia.
      constructor; [exact Hxy|].
      eapply List.Forall_impl; [|exact Hall].
      intros z Hz. exact (Htrans _ _ _ Hxy Hz).
Qed.

Lemma sort_sorted l :
  consistent cmp -> StronglySorted (before cmp) (sort cmp l).
Proof.
  intros Hc. induction l as [|x r IH]; simpl; [constructor|].
  now apply insertSorted_sorted.
Qed.

Lemma filter_insertSorted_other k x l :
  tied cmp k x = false ->
  List.filter (tied cmp k) (insertSorted cmp x l) = List.filter (tied cmp k) l.
Proof.
  intros Hx. induction l as [|y r IH]; simpl.
  - now rewrite Hx.
  - destruct (cmp x y >? 0); simpl.
    + now rewrite IH.
    + now rewrite Hx.
Qed.

Lemma filter_insertSorted_tied k x l :
  consistent cmp ->
  tied cmp k x = true ->
  List.filter (tied cmp k) (insertSorted cmp x l)
  = x :: List.filter (tied cmp k) l.
Proof.
  intros [Hflip Htrans] Hx.
  induction l as [|y r IH]; simpl.
  - now rewrite Hx.
  - destruct (cmp x y >? 0) eqn:E; simpl.
    + rewrite IH. destruct (tied cmp k y) eqn:Ey; [|reflexivity].
      exfalso. unfold tied in *. pose proof (Hflip k x) as F.
      assert (cmp x k <= 0) by lia.
      assert (cmp k y <= 0) by lia.
      pose proof (Htrans x k y). lia.
    + now rewrite Hx.
Qed.

(** Stability: the elements tied with any [k] keep their relative order. *)
Lemma sort_stable k l :
  consistent cmp ->
  List.filter (tied cmp k) (sort cmp l) = List.filter (tied cmp k) l.
Proof.
  intros Hc. induction l as [|x r IH]; simpl; [reflexivity|].
  destruct (tied cmp k x) eqn:E.
  - rewrite filter_insertSorted_tied by assumption. now rewrite IH.
  - rewrite filter_insertSorted_other by assumption. exact IH.
Qed.

Lemma tied_refl x : consistent cmp -> tied cmp x x = true.
Proof. intros [F _]. unfold tied. specialize (F x x). lia. Qed.

(** A consistent comparator leaves a stable sort no choice: two sorted,
    stable arrangements of the same elements are the same list.  So the
    insertion sort above computes what any conforming engine returns. *)
Lemma stable_sorted_unique l1 l2 :
  consistent cmp ->
  StronglySorted (before cmp) l1 -> StronglySorted (before cmp) l2 ->
  Permutation l1 l2 ->
  (forall k, List.filter (tied cmp k) l1 = List.filter (tied cmp k) l2) ->
  l1 = l2.
Proof.
  intros Hc. revert l2.
  induction l1 as [|x r1 IH]; intros l2 S1 S2 P Hf.
  - now apply Permutation_nil in P.
  - destruct l2 as [|y r2]; [symmetry in P; now apply Permutation_nil in P|].
    assert (Hxy : x = y).
    { pose proof (Hf x) as Hx. simpl in Hx. rewrite (tied_refl x Hc) in Hx.
      destruct (tied cmp x y) eqn:Et; [now injection Hx|]. exfalso.
      assert (Hx2 : In x r2).
      { assert (Hin : In x (y :: r2)) by (eapply Permutation_in; [exact P|now left]).
        destruct Hin as [->|Hin]; [|exact Hin].
        rewrite (tied_refl x Hc) in Et. discriminate. }
      assert (Hy1 : In y r1).
      { assert (Hin : In y (x :: r1))
          by (eapply Permutation_in; [symmetry; exact P|now left]).
        destruct Hin as [->|Hin]; [|exact Hin].
        rewrite (tied_refl y Hc) in Et. discriminate. }
      inversion S1 as [|? ? _ A1]; subst. inversion S2 as [|? ? _ A2]; subst.
      rewrite List.Forall_forall in A1, A2.
      pose proof (A1 y Hy1) as B1. pose proof (A2 x Hx2) as B2.
      unfold before, tied in *. destruct Hc as [F _]. specialize (F x y). lia. }
    subst y. f_equal. apply IH.
    + now inversion S1.
    + now inversion S2.
    + now apply Permutation_cons_inv in P.
    + intros k. specialize (Hf k). simpl in Hf.
      destruct (tied cmp k x); [now injection Hf | exact Hf].
Qed.

End SortFacts.

Lemma StronglySorted_weaken {A} (R Q : A -> A -> Prop) l :
  (forall a b, R a b -> Q a b) -> StronglySorted R l -> StronglySorted Q l.
Proof.
  intros HRQ. induction 1 as [|x r Hs IH Hall]; constructor; [exact IH|].
  eapply List.Forall_impl; [|exact Hall]. intros y. apply HRQ.
Qed.

Lemma ordinalCompare_flip a b :
  Z.sgn (ordinalCompare b a) = - Z.sgn (ordinalCompare a b).
Proof.
  revert b. induction a as [|x a IH]; intros [|y b]; simpl; try reflexivity.
  destruct (Z.eqb_spec (Z.of_N (N_of_ascii x) - Z.of_N (N_of_ascii y)) 0);
    destruct (Z.eqb_spec (Z.of_N (N_of_ascii y) - Z.of_N (N_of_ascii x)) 0);
    try lia.
  apply IH.
Qed.

Lemma ordinalCompare_trans a b c :
  ordinalCompare a b <= 0 -> ordinalCompare b c <= 0 -> ordinalCompare a c <= 0.
Proof.
  revert b c. induction a as [|x a IH]; intros [|y b] [|z c]; simpl; try lia.
  destruct (Z.eqb_spec (Z.of_N (N_of_ascii x) - Z.of_N (N_of_ascii y)) 0);
    destruct (Z.eqb_spec (Z.of_N (N_of_ascii y) - Z.of_N (N_of_ascii z)) 0);
    destruct (Z.eqb_spec (Z.of_N (N_of_ascii x) - Z.of_N (N_of_ascii z)) 0);
    try lia.
  apply IH.
Qed.

Lemma ordinalCompare_consistent : consistent ordinalCompare.
Proof. split; [apply ordinalCompare_flip | apply ordinalCompare_trans]. Qed.

Lemma existsb_eqb_In x l : existsb (String.eqb x) l = true <-> In x l.
Proof.
  rewrite existsb_exists. split.
  - intros (y & Hy & E). apply String.eqb_eq in E. now subst.
  - intros H. exists x. split; [exact H | apply String.eqb_refl].
Qed.

Lemma uniqFrom_spec seen l :
  List.NoDup (uniqFrom seen l) /\
  forall x, In x (uniqFrom seen l) -> In x l /\ ~ In x seen.
Proof.
  revert seen. induction l as [|a r IH]; intros seen; simpl.
  - split; [constructor | intros x []].
  - destruct (existsb (String.eqb a) seen) eqn:E.
    + destruct (IH seen) as [Hn Hin]. split; [exact Hn|].
      intros x Hx. destruct (Hin x Hx). auto.
    + destruct (IH (a :: seen)) as [Hn Hin]. split.
      * constructor; [|exact Hn]. intros Ha. destruct (Hin a Ha) as [_ Hno].
        apply Hno. now left.
      * intros x [<-|Hx].
        -- split; [now left|]. rewrite <- existsb_eqb_In. congruence.
        -- destruct (Hin x Hx) as [Hr Hno]. split; [now right|].
           intros Hs. apply Hno. now right.
Qed.

Lemma uniq_NoDup l : List.NoDup (uniq l).
Proof. apply uniqFrom_spec. Qed.

Lemma uniq_In x l : In x (uniq l) -> In x l.
Proof. intros H. now apply (uniqFrom_spec [] l). Qed.

Lemma trimStartL_head l :
  match trimStartL l with
  | [] => True
  | c :: _ => isWhiteSpace c = false
  end.
Proof.
  induction l as [|c r IH]; simpl; [exact I|].
  destruct (isWhiteSpace c) eqn:E; [exact IH | exact E].
Qed.

(** What [trim] leaves is empty or holds a character that is not white
    space. *)
Lemma trim_not_blank s :
  truthyStr (trim s) = true -> whitespaceOnly (trim s) = false.
Proof.
  unfold trim, whitespaceOnly, trimEndL.
  rewrite list_ascii_of_string_of_list_ascii.
  set (m := rev (trimStartL (list_ascii_of_string s))).
  pose proof (trimStartL_head m) as H.
  destruct (trimStartL m) as [|c r]; simpl; [discriminate|].
  intros _. rewrite forallb_app. simpl. rewrite H.
  now rewrite andb_false_r.
Qed.

End JS.

(* ===================================================================== *)
(** * Data model *)
(* ===================================================================== *)

Module Model.

(** A record as the dataset collaborator ([fetchShopsFromNotion]) returns
    it.  [editedAt] is the time value of [new Date(shop.editedAt)]. *)
Record ShopRecord := mkShopRecord {
  shopId : string;
  title : string;
  url : string;
  category : string;
  tags : list string;
  notes : string;
  editedAt : Z
}.

(** An entry of the [/api/shops] payload: [{ ...shop, screenshot }]. *)
Record Shop := mkShop {
  item :> ShopRecord;
  screenshot : string
}.

End Model.

Import Model.

(* ===================================================================== *)
(** * CacheStore (server) *)
(* ===================================================================== *)

Module CacheStore.

Import JS.

(** A JavaScript number: an integer, or one of the values that
    [Number.isFinite] rejects. *)
Inductive JSNum := Finite (z : Z) | NaN | PosInf | NegInf.

(** A value as [JSON.parse] builds it. *)
#[warnings="-register-all"]
Inductive JSValue :=
| JNull
| JBool (b : bool)
| JNum (n : JSNum)
| JStr (s : string)
| JArr (elements : list JSValue)
| JObj (properties : list (string * JSValue)).

(** [v?.name] for a name that no prototype defines: the own property of
    an object, [undefined] ([None]) for everything else. *)
Definition getProp (name : string) (v : JSValue) : option JSValue :=
  match v with
  | JObj properties =>
      snd <$> List.find (fun kv => String.eqb (fst kv) name) properties
  | _ => None
  end.

(** ToBoolean *)
Definition truthy (v : option JSValue) : bool :=
  match v with
  | None | Some JNull => false
  | Some (JBool b) => b
  | Some (JNum (Finite z)) => negb (Z.eqb z 0)
  | Some (JNum NaN) => false
  | Some (JNum _) => true
  | Some (JStr s) => truthyStr s
  | Some (JArr _) | Some (JObj _) => true
  end.

(** [Date.now() - n] *)
Definition ageOf (now : Z) (n : JSNum) : JSNum :=
  match n with
  | Finite z => Finite (now - z)
  | NaN => NaN
  | PosInf => NegInf
  | NegInf => PosInf
  end.

(** [!Number.isFinite(ageMs) || ageMs > ttl] *)
Definition expired (ageMs : JSNum) (ttl : Z) : bool :=
  match ageMs with
  | Finite a => a >? ttl
  | _ => true
  end.

(** What [readCacheEntry] hands back. *)
Record CacheEntry := mkCacheEntry {
  contentType : JSValue;
  body : string
}.

(** The cache directory: file path to file content. *)
Abbreviation Files := (gmap string string).

Section Store.

(** [JSON.parse] of a file's text; [None] when it throws. *)
Variable JSON_parse : string -> option JSValue.
(** [JSON.stringify] of the metadata object. *)
Variable JSON_stringify : JSValue -> string.
(** [String(v)] and [Number(v)]; [None] when the conversion throws. *)
Variable toStringJS : JSValue -> option string.
Variable toNumberJS : JSValue -> option JSNum.

Variable screenshotCacheDir : string.
(** [Number(process.env.SCREENSHOT_CACHE_TTL_HOURS || 168)] *)
Variable screenshotTtlHours : Z.

Definition screenshotTtlMs : Z := Z.max 1 screenshotTtlHours * 60 * 60 * 1000.

Definition binPath (cacheKey : string) : string :=
  screenshotCacheDir +:+ "/" +:+ cacheKey +:+ ".bin".
Definition metaPath (cacheKey : string) : string :=
  screenshotCacheDir +:+ "/" +:+ cacheKey +:+ ".json".

(** [fs.readFile]: rejects when the file is not there. *)
Definition readFile (files : Files) (path : string) : Outcome string :=
  match files !! path with
  | Some content => Return content
  | None => Throw ("ENOENT: no such file or directory, open '" +:+ path +:+ "'")
  end.

Definition orThrow {A} (message : string) (o : option A) : Outcome A :=
  match o with
  | Some a => Return a
  | None => Throw message
  end.

(** The body of the [try] block of [readCacheEntry]. *)
Definition readCacheEntryTry (files : Files) (now : Z) (cacheKey : string)
  : Outcome (option CacheEntry) :=
  metaRaw ← readFile files (metaPath cacheKey);
  bin ← readFile files (binPath cacheKey);
  meta ← orThrow "SyntaxError" (JSON_parse metaRaw);
  if negb (truthy (getProp "fetchedAt" meta))
     || negb (truthy (getProp "contentType" meta))
  then Return None
  else
    match getProp "fetchedAt" meta, getProp "contentType" meta with
    | Some fetchedAt, Some ct =>
        text ← orThrow "TypeError" (toStringJS ct);
        if negb (startsWith "image/" (toLowerCase text)) then Return None
        else
          n ← orThrow "TypeError" (toNumberJS fetchedAt);
          let ageMs := ageOf now n in
          if expired ageMs screenshotTtlMs then Return None
          else Return (Some (mkCacheEntry ct bin))
    | _, _ => Return None
    end.

Definition readCacheEntry (files : Files) (now : Z) (cacheKey : string)
  : Outcome (option CacheEntry) :=
  tryCatch (readCacheEntryTry files now cacheKey) (fun _ => Return None).

Definition metaOf (contentType : string) (now : Z) : JSValue :=
  JObj [("contentType", JStr contentType); ("fetchedAt", JNum (Finite now))].

Definition writeCacheEntry (files : Files) (now : Z) (cacheKey : string)
  (contentType : string) (body : string) : Files :=
  <[metaPath cacheKey := JSON_stringify (metaOf contentType now)]>
    (<[binPath cacheKey := body]> files).



End Store.

Section StoreFacts.

Variable JSON_parse : string -> option JSValue.
Variable JSON_stringify : JSValue -> string.
Variable toStringJS : JSValue -> option string.
Variable toNumberJS : JSValue -> option JSNum.
Variable dir : string.
Variable hours : Z.

(** A string converts to itself, a number to itself. *)
Hypothesis toStringJS_str : forall s, toStringJS (JStr s) = Some s.
Hypothesis toNumberJS_num : forall n, toNumberJS (JNum n) = Some n.

Local Abbreviation get := (readCacheEntry JSON_parse toStringJS toNumberJS dir hours).
Local Abbreviation getTry := (readCacheEntryTry JSON_parse toStringJS toNumberJS dir hours).
Local Abbreviation put := (writeCacheEntry JSON_stringify dir).
Local Abbreviation ttl := (screenshotTtlMs hours).



(** Once both files are read and the metadata is parsed. *)
Definition check (now : Z) (meta : JSValue) (bin : string)
  : Outcome (option CacheEntry) :=
  if negb (truthy (getProp "fetchedAt" meta))
     || negb (truthy (getProp "contentType" meta))
  then Return None
  else
    match getProp "fetchedAt" meta, getProp "contentType" meta with
    | Some fetchedAt, Some ct =>
        text ← orThrow "TypeError" (toStringJS ct);
        if negb (startsWith "image/" (toLowerCase text)) then Return None
        else
          n ← orThrow "TypeError" (toNumberJS fetchedAt);
          if expired (ageOf now n) ttl then Return None
          else Return (Some (mkCacheEntry ct bin))
    | _, _ => Return None
    end.

Lemma readCacheEntry_parsed files now key metaRaw bin meta :
  files !! metaPath dir key = Some metaRaw ->
  files !! binPath dir key = Some bin ->
  JSON_parse metaRaw = Some meta ->
  get files now key = tryCatch (check now meta bin) (fun _ => Return None).
Proof.
  intros Hm Hb Hp. unfold readCacheEntry, readCacheEntryTry, readFile.
  rewrite Hm, Hb. simpl. rewrite Hp. reflexivity.
Qed.



Lemma check_accepts now t ct meta bin :
  getProp "fetchedAt" meta = Some (JNum (Finite t)) -> t <> 0 ->
  getProp "contentType" meta = Some (JStr ct) ->
  startsWith "image/" (toLowerCase ct) = true ->
  check now meta bin
  = Return (if now - t >? ttl then None else Some (mkCacheEntry (JStr ct) bin)).
Proof.
  intros Hf Ht Hc Hi. unfold check. rewrite Hf, Hc. simpl.
  assert (E0 : Z.eqb t 0 = false) by now apply Z.eqb_neq.
  rewrite E0. simpl.
  assert (Hne : truthyStr ct = true).
  { destruct ct; [discriminate Hi | reflexivity]. }
  rewrite Hne. simpl. rewrite toStringJS_str. simpl. rewrite Hi. simpl.
  rewrite toNumberJS_num. simpl. now destruct (now - t >? ttl).
Qed.

Lemma append_inj_l a b c : a +:+ b = a +:+ c -> b = c.
Proof. induction a as [|x a IH]; simpl; intros H; [exact H|]. injection H. exact IH. Qed.

Lemma paths_differ key : metaPath dir key <> binPath dir key.
Proof.
  unfold metaPath, binPath. intros H.
  do 3 apply append_inj_l in H. discriminate H.
Qed.

(** [put] then [get]: the entry comes back while it is fresh. *)
Lemma readCacheEntry_after_write files t now key ct bin :
  JSON_parse (JSON_stringify (metaOf ct t)) = Some (metaOf ct t) ->
  startsWith "image/" (toLowerCase ct) = true -> t <> 0 ->
  get (put files t key ct bin) now key
  = Return (if now - t >? ttl then None else Some (mkCacheEntry (JStr ct) bin)).
Proof.
  intros Hp Hi Ht.
  erewrite readCacheEntry_parsed; [| |  |exact Hp].
  - erewrite check_accepts; eauto; reflexivity.
  - unfold writeCacheEntry. apply lookup_insert_eq.
  - unfold writeCacheEntry. rewrite lookup_insert_ne by apply paths_differ.
    apply lookup_insert_eq.
Qed.


End StoreFacts.

(** A cache directory holding one entry, fetched at time 1000. *)
Definition demoMetaRaw : string := "{contentType:image/png,fetchedAt:1000}".

Definition demoParse (raw : string) : option JSValue :=
  if String.eqb raw demoMetaRaw then Some (metaOf "image/png" 1000) else None.

Definition demoString (v : JSValue) : option string :=
  match v with
  | JStr s => Some s
  | JNull => Some "null"
  | JBool b => Some (if b then "true" else "false")
  | _ => None
  end.

Definition demoNumber (v : JSValue) : option JSNum :=
  match v with
  | JNum n => Some n
  | JNull => Some (Finite 0)
  | JBool b => Some (Finite (if b then 1 else 0))
  | _ => Some NaN
  end.



End CacheStore.

(* ===================================================================== *)
(** * ScreenshotFetcher (server) *)
(* ===================================================================== *)

Module ScreenshotFetcher.

Import JS.

(** What [fetch] resolves to, as far as the program looks at it. *)
Record Response := mkResponse {
  ok : bool;
  status : nat;
  contentTypeHeader : option string;   (* response.headers.get("content-type") *)
  arrayBuffer : Outcome string         (* the body, or the error reading it *)
}.

(** What [fetchScreenshotBuffer] returns. *)
Record Image := mkImage {
  contentType : string;
  body : string
}.

Section Fetcher.

(** [encodeURIComponent] *)
Variable encodeURIComponent : string -> string.

(** The network: [fetch] answers and moves on. *)
Variable Net : Type.
Variable fetch : Net -> string -> Outcome Response * Net.

Definition screenshotProviders : list (string -> string) :=
  [fun url => "https://image.thum.io/get/width/1400/crop/900/noanimate/"
              +:+ encodeURIComponent url].

(** [a || b] on strings *)
Definition orElse (a : option string) (b : string) : string :=
  match a with
  | Some s => if truthyStr s then s else b
  | None => b
  end.

(** The loop of [fetchScreenshotBuffer] over the providers still to try;
    when they run out, [throw new Error(lastError)]. *)
Fixpoint tryProviders (providers : list (string -> string)) (targetUrl : string)
  (lastError : string) (net : Net) : Outcome Image * Net :=
  match providers with
  | [] => (Throw lastError, net)
  | buildProviderUrl :: rest =>
      let upstream := buildProviderUrl targetUrl in
      if negb (truthyStr upstream) then tryProviders rest targetUrl lastError net
      else
        let '(answer, net) := fetch net upstream in
        match answer with
        | Throw message => tryProviders rest targetUrl message net
        | Return response =>
            if negb (ok response) then
              tryProviders rest targetUrl
                ("Provider failed (" +:+ showNat (status response) +:+ ").") net
            else
              let contentType := orElse (contentTypeHeader response) "image/jpeg" in
              if negb (startsWith "image/" (toLowerCase contentType)) then
                tryProviders rest targetUrl
                  ("Provider returned non-image content (" +:+ contentType +:+ ").")
                  net
              else
                match arrayBuffer response with
                | Throw message => tryProviders rest targetUrl message net
                | Return body =>
                    if (String.length body =? 0)%nat then
                      tryProviders rest targetUrl
                        "Provider returned an empty image." net
                    else (Return (mkImage contentType body), net)
                end
        end
  end.

(** [fetchScreenshotBuffer], for any list of providers. *)
Definition fetchScreenshotBufferWith (providers : list (string -> string))
  (targetUrl : string) (net : Net) : Outcome Image * Net :=
  tryProviders providers targetUrl "Unknown screenshot error." net.

Definition fetchScreenshotBuffer (targetUrl : string) (net : Net)
  : Outcome Image * Net :=
  fetchScreenshotBufferWith screenshotProviders targetUrl net.

(** Why an attempt is rejected, if it is: the upstream status, the
    content-type, the empty body or the exception caught. *)
Definition rejection (answer : Outcome Response) : option string :=
  match answer with
  | Throw message => Some message
  | Return response =>
      if negb (ok response) then
        Some ("Provider failed (" +:+ showNat (status response) +:+ ").")
      else
        let contentType := orElse (contentTypeHeader response) "image/jpeg" in
        if negb (startsWith "image/" (toLowerCase contentType)) then
          Some ("Provider returned non-image content (" +:+ contentType +:+ ").")
        else
          match arrayBuffer response with
          | Throw message => Some message
          | Return body =>
              if (String.length body =? 0)%nat
              then Some "Provider returned an empty image." else None
          end
  end.

(** The answers [fetchScreenshotBuffer] receives, in order: one for
    every provider it attempts, up to the first one it accepts. *)
Fixpoint answers (providers : list (string -> string)) (targetUrl : string)
  (net : Net) : list (Outcome Response) :=
  match providers with
  | [] => []
  | buildProviderUrl :: rest =>
      let upstream := buildProviderUrl targetUrl in
      if negb (truthyStr upstream) then answers rest targetUrl net
      else
        let '(answer, net) := fetch net upstream in
        answer :: match rejection answer with
                  | Some _ => answers rest targetUrl net
                  | None => []
                  end
  end.

(** The reason of the last rejection among [l], [lastError] if none. *)
Definition lastReason (lastError : string) (l : list (Outcome Response)) : string :=
  fold_left (fun e answer => default e (rejection answer)) l lastError.

Definition allRejected (l : list (Outcome Response)) : Prop :=
  Forall (fun answer => rejection answer <> None) l.

Lemma tryProviders_rejected providers targetUrl lastError net :
  allRejected (answers providers targetUrl net) ->
  fst (tryProviders providers targetUrl lastError net)
  = Throw (lastReason lastError (answers providers targetUrl net)).
Proof.
  revert lastError net.
  induction providers as [|p rest IH]; intros e net H; simpl in *; [reflexivity|].
  destruct (truthyStr (p targetUrl)); simpl in *; [|now apply IH].
  destruct (fetch net (p targetUrl)) as [answer net'].
  inversion H as [|? ? Hhd Htl]; subst.
  destruct (rejection answer) as [r|] eqn:Er; [clear Hhd|now contradiction Hhd].
  change (lastReason e (answer :: answers rest targetUrl net'))
    with (lastReason (default e (rejection answer)) (answers rest targetUrl net')).
  rewrite Er. simpl default. rewrite <- (IH r net' Htl). clear IH H Htl.
  unfold rejection in Er.
  destruct answer as [response|message]; [|now injection Er as ->].
  destruct (ok response); simpl in *; [|now injection Er as <-].
  destruct (startsWith "image/"
              (toLowerCase (orElse (contentTypeHeader response) "image/jpeg")));
    simpl in *; [|now injection Er as <-].
  destruct (arrayBuffer response) as [bytes|message]; [|now injection Er as ->].
  destruct (String.length bytes =? 0)%nat; [now injection Er as <-|discriminate].
Qed.

Lemma lastReason_snoc e l answer r :
  rejection answer = Some r -> lastReason e (l ++ [answer])%list = r.
Proof. intros H. unfold lastReason. rewrite fold_left_app. simpl. now rewrite H. Qed.

End Fetcher.

(** C5, as the code has it. When every provider that is attempted is
    rejected (non-success status, non-image content-type, empty body or a
    caught exception) and at least one is attempted, [fetchScreenshotBuffer]
    fails with the reason of the last rejection; when none is attempted
    (the list is empty, or no provider yields an upstream URL) it fails
    with the placeholder "Unknown screenshot error."; with the providers
    the server configures, one attempt is always made, so a failure always
    carries the reason of that rejection. *)
Theorem fetchScreenshotBuffer_last_rejection (Net : Type)
  (fetch : Net -> string -> Outcome Response * Net)
  (providers : list (string -> string)) (targetUrl : string) (net : Net) :
  (forall l answer r,
      answers Net fetch providers targetUrl net = (l ++ [answer])%list ->
      allRejected (l ++ [answer])%list -> rejection answer = Some r ->
      fst (fetchScreenshotBufferWith Net fetch providers targetUrl net) = Throw r)
  /\ (answers Net fetch providers targetUrl net = [] ->
       fst (fetchScreenshotBufferWith Net fetch providers targetUrl net)
       = Throw "Unknown screenshot error.")
  /\ (forall encodeURIComponent answer net' r,
       fetch net ("https://image.thum.io/get/width/1400/crop/900/noanimate/"
                  +:+ encodeURIComponent targetUrl) = (answer, net') ->
       rejection answer = Some r ->
       fst (fetchScreenshotBuffer encodeURIComponent Net fetch targetUrl net)
       = Throw r).
Proof.
  split; [|split].
  - intros l answer r Ha Hall Hr. unfold fetchScreenshotBufferWith.
    rewrite tryProviders_rejected by (rewrite Ha; exact Hall).
    rewrite Ha. f_equal. now apply lastReason_snoc.
  - intros Ha. unfold fetchScreenshotBufferWith.
    rewrite tryProviders_rejected by (rewrite Ha; constructor).
    now rewrite Ha.
  - intros enc answer net' r Hf Hr.
    unfold fetchScreenshotBuffer, fetchScreenshotBufferWith.
    assert (Ha : answers Net fetch (screenshotProviders enc) targetUrl net = [answer]).
    { simpl. rewrite Hf, Hr. reflexivity. }
    rewrite tryProviders_rejected by (rewrite Ha; repeat constructor; congruence).
    rewrite Ha. unfold lastReason. simpl. now rewrite Hr.
Qed.

(** A network on which every request fails with the status given. *)
Definition failing (code : nat) (n : nat) (_ : string) : Outcome Response * nat :=
  (Return (mkResponse false code None (Return "")), S n).

Lemma fetchScreenshotBuffer_last_rejection_witness :
  fst (fetchScreenshotBufferWith nat (failing 503)
         [fun u => "https://a.example/" +:+ u; fun u => "https://b.example/" +:+ u]
         "https://shop.example/" 0%nat)
  = Throw "Provider failed (503).".
Proof.
  exact (proj1 (fetchScreenshotBuffer_last_rejection nat (failing 503)
                  [fun u => "https://a.example/" +:+ u;
                   fun u => "https://b.example/" +:+ u]
                  "https://shop.example/" 0%nat)
           [Return (mkResponse false 503 None (Return ""))]
           (Return (mkResponse false 503 None (Return "")))
           "Provider failed (503)." eq_refl
           ltac:(repeat constructor; discriminate) eq_refl).
Defined.

(** C5 as stated fails on an empty provider list: nothing is attempted,
    so there is no rejection, and the failure carries the placeholder. *)
Lemma fetchScreenshotBuffer_empty_counterexample :
  answers nat (failing 503) [] "https://shop.example/" 0%nat = []
  /\ fetchScreenshotBufferWith nat (failing 503) [] "https://shop.example/" 0%nat
     = (Throw "Unknown screenshot error.", 0%nat).
Proof. split; reflexivity. Qed.

End ScreenshotFetcher.

(* ===================================================================== *)
(** * DatasetCache (server) *)
(* ===================================================================== *)

Module Notion.

(** What [fetchShopsFromNotion] resolves to. *)
Record Data := mkData {
  items : list ShopRecord;
  totalRows : nat;
  shopsWithUrl : nat
}.

End Notion.

Module DatasetCache.

Import JS.

(** The body of a [/api/shops] response. *)
Record Payload := mkPayload {
  shops : list Shop;
  categories : list string;
  tags : list string;
  count : nat;
  totalRows : nat;
  shopsWithUrl : nat;
  databaseId : string
}.

Definition screenshotVersion : string := "v3".

Section Build.

Variable localeCompare : string -> string -> Z.
Variable encodeURIComponent : string -> string.
(** [process.env.NOTION_DATABASE_ID] *)
Variable NOTION_DATABASE_ID : string.

Definition screenshotOf (shop : ShopRecord) : string :=
  "/api/screenshot?u=" +:+ encodeURIComponent (url shop)
  +:+ "&sv=" +:+ screenshotVersion.

(** [buildShopsPayload], from the dataset the collaborator returned. *)
Definition buildShopsPayloadFrom (notionData : Notion.Data) : Payload :=
  let payload :=
    List.map (fun shop => mkShop shop (screenshotOf shop)) (Notion.items notionData) in
  let tags :=
    sort localeCompare
      (uniq (List.filter truthyStr
               (List.map trim (flat_map (fun shop : Shop => Model.tags shop) payload)))) in
  let categories :=
    sort localeCompare
      (uniq (List.filter truthyStr
               (List.map (fun shop : Shop => trim (category shop)) payload))) in
  mkPayload payload categories tags (length payload)
            (Notion.totalRows notionData) (Notion.shopsWithUrl notionData)
            NOTION_DATABASE_ID.

(** [buildShopsPayload]: fails when [fetchShopsFromNotion] does. *)
Definition buildShopsPayload (answer : Outcome Notion.Data) : Outcome Payload :=
  notionData ← answer; mret (buildShopsPayloadFrom notionData).

End Build.

(** ** The payload *)

Section BuildFacts.

Variable localeCompare : string -> string -> Z.
Variable encodeURIComponent : string -> string.
Variable db : string.

(** Sorted, duplicate-free, and without blank entries. *)
Definition facet (l : list string) : Prop :=
  List.NoDup l /\
  Forall (fun s => whitespaceOnly s = false) l /\
  StronglySorted (fun a b => localeCompare a b <= 0) l.

Lemma facet_of_trimmed (candidates : list string) :
  consistent localeCompare ->
  (forall x, In x candidates -> exists y, x = trim y) ->
  facet (sort localeCompare (uniq (List.filter truthyStr candidates))).
Proof.
  intros Hlc Htrim. set (l := uniq _).
  assert (Hl : Forall (fun s => whitespaceOnly s = false) l).
  { apply List.Forall_forall. intros x Hx. apply uniq_In, filter_In in Hx.
    destruct Hx as [Hx Ht]. destruct (Htrim x Hx) as [y ->].
    now apply trim_not_blank. }
  repeat split.
  - eapply Permutation_NoDup; [symmetry; apply sort_perm | apply uniq_NoDup].
  - eapply Permutation_Forall; [symmetry; apply sort_perm | exact Hl].
  - now apply sort_sorted.
Qed.

(** C10. A payload that [buildShopsPayload] builds has [count] equal to
    the number of [shops]; [categories] and [tags] are free of duplicates,
    hold no empty or white-space-only string and are in ascending
    [localeCompare] order (for a consistent [localeCompare]); and every
    shop carries the screenshot link
    /api/screenshot?u=<encodeURIComponent(url)>&sv=v3. *)
Theorem buildShopsPayload_invariants (Hlc : consistent localeCompare)
  (answer : Outcome Notion.Data) (p : Payload) :
  buildShopsPayload localeCompare encodeURIComponent db answer = Return p ->
  count p = length (shops p)
  /\ facet (categories p)
  /\ facet (tags p)
  /\ Forall (fun shop : Shop =>
        screenshot shop
        = "/api/screenshot?u=" +:+ encodeURIComponent (url shop) +:+ "&sv=v3")
       (shops p).
Proof.
  destruct answer as [notionData|message]; [|discriminate].
  intros E. injection E as <-. unfold buildShopsPayloadFrom. simpl.
  split; [reflexivity|].
  split.
  { apply facet_of_trimmed; [exact Hlc|]. intros x Hx.
    apply in_map_iff in Hx. destruct Hx as (shop & <- & _). eauto. }
  split.
  { apply facet_of_trimmed; [exact Hlc|]. intros x Hx.
    apply in_map_iff in Hx. destruct Hx as (tag & <- & _). eauto. }
  apply Forall_map. apply List.Forall_forall. intros shop _. reflexivity.
Qed.

End BuildFacts.

Definition demoData : Notion.Data :=
  Notion.mkData
    [mkShopRecord "1" "Zed" "https://zed.example/" " food " ["type"; " type"; "  "]
                  "" 3;
     mkShopRecord "2" "Acme" "https://acme.example/" "bags" ["motion"; ""] "" 2]
    2 2.

Lemma buildShopsPayload_invariants_witness :
  consistent ordinalCompare /\
  let p := buildShopsPayloadFrom ordinalCompare (fun u => u) "db" demoData in
  count p = length (shops p) /\ facet ordinalCompare (categories p)
  /\ facet ordinalCompare (tags p)
  /\ Forall (fun shop : Shop =>
        screenshot shop = "/api/screenshot?u=" +:+ url shop +:+ "&sv=v3") (shops p).
Proof.
  split; [exact ordinalCompare_consistent|].
  exact (buildShopsPayload_invariants ordinalCompare (fun u => u) "db"
           ordinalCompare_consistent (Return demoData) _ eq_refl).
Defined.

(** The facets of the example: trimmed, deduplicated, sorted. *)
Example demoData_facets :
  let p := buildShopsPayloadFrom ordinalCompare (fun u => u) "db" demoData in
  tags p = ["motion"; "type"] /\ categories p = ["bags"; "food"].
Proof. split; reflexivity. Qed.

(** The process-wide slot [shopsCache]; [inflight] names the pending
    promise by the number of the [buildShopsPayload] call behind it. *)
Record ShopsCache := mkCache {
  payload : option Payload;
  fetchedAt : Z;
  inflight : option nat
}.

(** An answer of the [/api/shops] handler. *)
Inductive HttpResponse :=
| Ok200 (body : Payload) (xShopsCache : string)
| Error500 (details : string).

(** A request suspended at [await shopsCache.inflight]. *)
Record Waiter := mkWaiter {
  request : nat;
  awaited : nat;
  source : string
}.

(** The server between two turns of the event loop. *)
Record Server := mkServer {
  shopsCache : ShopsCache;
  started : nat;             (* calls of [buildShopsPayload] so far *)
  finished : nat;            (* those that have settled *)
  waiting : list Waiter;
  responses : list (nat * HttpResponse)
}.

Definition boot : Server := mkServer (mkCache None 0 None) 0 0 [] [].

(** What reaches the server: a request for [/api/shops], or the
    settlement of the promise that a [buildShopsPayload] call returned. *)
Inductive Event :=
| Request (req : nat) (now : Z)
| Settled (promise : nat) (outcome : Outcome Payload) (now : Z).

(** Where [getShopsPayload] stands when it yields to the event loop. *)
Inductive Progress :=
| Done (result : Payload * string)
| Await (promise : nat) (source : string).

Section Serving.

(** [Number(process.env.SHOPS_CACHE_TTL_SECONDS || 300)] *)
Variable shopsCacheTtlSeconds : Z.

Definition shopsCacheTtlMs : Z := Z.max 5 shopsCacheTtlSeconds * 1000.

Definition isFreshCache (c : ShopsCache) (now : Z) : bool :=
  match payload c with
  | None => false
  | Some _ =>
      if Z.eqb (fetchedAt c) 0 then false
      else now - fetchedAt c <? shopsCacheTtlMs
  end.

(** [getShopsPayload] up to its first suspension point. *)
Definition getShopsPayload (now : Z) (sv : Server) : Progress * Server :=
  let c := shopsCache sv in
  match (if isFreshCache c now then payload c else None) with
  | Some p => (Done (p, "memory-fresh"), sv)
  | None =>
      match inflight c with
      | Some promise => (Await promise "memory-inflight", sv)
      | None =>
          let promise := started sv in
          (Await promise "notion-refresh",
           mkServer (mkCache (payload c) (fetchedAt c) (Some promise))
                    (S (started sv)) (finished sv) (waiting sv) (responses sv))
      end
  end.

(** The [.then] and [.finally] callbacks chained on [buildShopsPayload()]. *)
Definition settle (outcome : Outcome Payload) (now : Z) (c : ShopsCache) : ShopsCache :=
  let c := match outcome with
           | Return p => mkCache (Some p) now (inflight c)
           | Throw _ => c
           end in
  mkCache (payload c) (fetchedAt c) None.

(** What [await shopsCache.inflight] gives a caller, and what
    [getShopsPayload] then returns. *)
Definition observed (outcome : Outcome Payload) (source : string)
  : Outcome (Payload * string) :=
  p ← outcome; mret (p, source).

(** The handler around [getShopsPayload]: [try] ... [catch]. *)
Definition respond (c : ShopsCache) (result : Outcome (Payload * string))
  : HttpResponse :=
  match result with
  | Return (p, source) => Ok200 p source
  | Throw details =>
      match payload c with
      | Some stale => Ok200 stale "memory-stale-on-error"
      | None => Error500 details
      end
  end.

Definition awaits (promise : nat) (w : Waiter) : bool :=
  Nat.eqb (awaited w) promise.

Definition step (sv : Server) (e : Event) : Server :=
  match e with
  | Request req now =>
      let '(progress, sv) := getShopsPayload now sv in
      match progress with
      | Done result =>
          mkServer (shopsCache sv) (started sv) (finished sv) (waiting sv)
                   (responses sv ++ [(req, respond (shopsCache sv) (Return result))])
      | Await promise source =>
          mkServer (shopsCache sv) (started sv) (finished sv)
                   (waiting sv ++ [mkWaiter req promise source]) (responses sv)
      end
  | Settled promise outcome now =>
      match inflight (shopsCache sv) with
      | Some p =>
          if Nat.eqb p promise then
            let c := settle outcome now (shopsCache sv) in
            mkServer c (started sv) (S (finished sv))
              (List.filter (fun w => negb (awaits promise w)) (waiting sv))
              (responses sv ++
                 List.map (fun w => (request w, respond c (observed outcome (source w))))
                          (List.filter (awaits promise) (waiting sv)))
          else sv
      | None => sv
      end
  end.

Definition run (sv : Server) (events : list Event) : Server :=
  fold_left step events sv.

(** Either nothing is in flight and nobody waits, or exactly one call of
    [buildShopsPayload] is pending (the latest) and every waiter awaits it. *)
Definition wf (sv : Server) : Prop :=
  match inflight (shopsCache sv) with
  | None => finished sv = started sv /\ waiting sv = []
  | Some p =>
      started sv = S p /\ finished sv = p /\
      Forall (fun w => awaited w = p) (waiting sv)
  end.

End Serving.

(** ** Single flight *)

Section ServingFacts.

Variable seconds : Z.

Local Abbreviation step' := (step seconds).
Local Abbreviation run' := (run seconds).
Local Abbreviation fresh := (isFreshCache seconds).

Lemma wf_boot : wf boot.
Proof. split; reflexivity. Qed.

Lemma step_fresh sv req now p :
  fresh (shopsCache sv) now = true -> payload (shopsCache sv) = Some p ->
  step' sv (Request req now)
  = mkServer (shopsCache sv) (started sv) (finished sv) (waiting sv)
             (responses sv ++ [(req, Ok200 p "memory-fresh")]).
Proof. intros Hf Hp. unfold step, getShopsPayload. now rewrite Hf, Hp. Qed.

Lemma step_join sv req now p :
  fresh (shopsCache sv) now = false -> inflight (shopsCache sv) = Some p ->
  step' sv (Request req now)
  = mkServer (shopsCache sv) (started sv) (finished sv)
             (waiting sv ++ [mkWaiter req p "memory-inflight"]) (responses sv).
Proof. intros Hf Hi. unfold step, getShopsPayload. now rewrite Hf, Hi. Qed.

Lemma step_start sv req now :
  fresh (shopsCache sv) now = false -> inflight (shopsCache sv) = None ->
  step' sv (Request req now)
  = mkServer (mkCache (payload (shopsCache sv)) (fetchedAt (shopsCache sv))
                      (Some (started sv)))
             (S (started sv)) (finished sv)
             (waiting sv ++ [mkWaiter req (started sv) "notion-refresh"])
             (responses sv).
Proof. intros Hf Hi. unfold step, getShopsPayload. now rewrite Hf, Hi. Qed.

Lemma filter_awaits p l :
  Forall (fun w => awaited w = p) l ->
  List.filter (fun w => negb (awaits p w)) l = [] /\ List.filter (awaits p) l = l.
Proof.
  induction 1 as [|w l Hw _ [IH1 IH2]]; simpl; [split; reflexivity|].
  assert (E : awaits p w = true) by (unfold awaits; rewrite Hw; apply Nat.eqb_refl).
  rewrite E. simpl. split; [exact IH1 | now rewrite IH2].
Qed.

Lemma step_settled sv p outcome now :
  inflight (shopsCache sv) = Some p ->
  Forall (fun w => awaited w = p) (waiting sv) ->
  step' sv (Settled p outcome now)
  = let c := settle outcome now (shopsCache sv) in
    mkServer c (started sv) (S (finished sv)) []
      (responses sv ++
         List.map (fun w => (request w, respond c (observed outcome (source w))))
                  (waiting sv)).
Proof.
  intros Hi Hw. unfold step. rewrite Hi, Nat.eqb_refl. simpl.
  now rewrite (proj1 (filter_awaits _ _ Hw)), (proj2 (filter_awaits _ _ Hw)).
Qed.

(** The invariant holds from boot on. *)
Lemma step_wf sv e : wf sv -> wf (step' sv e).
Proof.
  intros H. destruct e as [req now|p outcome now].
  - destruct (fresh (shopsCache sv) now) eqn:Hf.
    + assert (exists p, payload (shopsCache sv) = Some p) as [p Hp].
      { unfold isFreshCache in Hf. destruct (payload (shopsCache sv)); eauto.
        discriminate. }
      rewrite (step_fresh _ _ _ _ Hf Hp). exact H.
    + destruct (inflight (shopsCache sv)) as [p|] eqn:Hi.
      * rewrite (step_join _ _ _ _ Hf Hi). unfold wf in *. simpl.
        rewrite Hi in *. destruct H as (H1 & H2 & H3).
        repeat split; try assumption. apply Forall_app. split; [exact H3|].
        now repeat constructor.
      * rewrite (step_start _ _ _ Hf Hi). unfold wf in *. simpl.
        rewrite Hi in H. destruct H as [H1 H2]. rewrite H2.
        repeat split; [exact H1|]. now repeat constructor.
  - unfold wf in H. destruct (inflight (shopsCache sv)) as [q|] eqn:Hi.
    + destruct H as (H1 & H2 & H3).
      destruct (Nat.eqb_spec q p) as [->|Hne].
      * rewrite (step_settled _ _ _ _ Hi H3). unfold wf. simpl.
        split; [congruence | reflexivity].
      * unfold step. rewrite Hi. apply Nat.eqb_neq in Hne. rewrite Hne.
        unfold wf. rewrite Hi. auto.
    + unfold step. rewrite Hi. unfold wf. now rewrite Hi.
Qed.

Lemma run_wf events sv : wf sv -> wf (run' sv events).
Proof.
  revert sv. induction events as [|e l IH]; intros sv H; [exact H|].
  apply IH, step_wf, H.
Qed.

(** At most one call of [buildShopsPayload] is pending at any time. *)
Lemma one_in_flight events :
  let sv := run' boot events in
  (started sv = finished sv \/ started sv = S (finished sv)).
Proof.
  intros sv. pose proof (run_wf events boot wf_boot) as H. fold sv in H.
  unfold wf in H. destruct (inflight (shopsCache sv)).
  - right. destruct H as (-> & -> & _). reflexivity.
  - left. now destruct H.
Qed.

Definition requestOf (rn : nat * Z) : Event := Request (fst rn) (snd rn).
Definition joiner (p : nat) (rn : nat * Z) : Waiter :=
  mkWaiter (fst rn) p "memory-inflight".

(** Callers that arrive while [p] is in flight and nothing fresh is
    cached all join [p]; no [buildShopsPayload] call is made. *)
Lemma run_join calls sv p :
  inflight (shopsCache sv) = Some p ->
  Forall (fun rn => fresh (shopsCache sv) (snd rn) = false) calls ->
  run' sv (List.map requestOf calls)
  = mkServer (shopsCache sv) (started sv) (finished sv)
             (waiting sv ++ List.map (joiner p) calls) (responses sv).
Proof.
  revert sv. induction calls as [|[req now] l IH]; intros sv Hi Hf.
  - simpl. rewrite app_nil_r. now destruct sv.
  - inversion Hf as [|? ? Hhd Htl]; subst. simpl in Hhd.
    change (run' sv (List.map requestOf ((req, now) :: l)))
      with (run' (step' sv (Request req now)) (List.map requestOf l)).
    rewrite (step_join _ _ _ _ Hhd Hi).
    rewrite IH by assumption. simpl. now rewrite <- app_assoc.
Qed.

Lemma fresh_later c now later :
  fresh c now = false -> now <= later -> fresh c later = false.
Proof.
  unfold isFreshCache. destruct (payload c); [|reflexivity].
  destruct (Z.eqb (fetchedAt c) 0); [reflexivity|]. lia.
Qed.

Lemma observed_payload (outcome : Outcome Payload) src :
  fst <$> observed outcome src = outcome.
Proof. now destruct outcome. Qed.

(** The callers of one refresh: the one that starts it, then the joiners. *)
Definition callersOf (p : nat) (first : nat * Z) (rest : list (nat * Z)) : list Waiter :=
  mkWaiter (fst first) p "notion-refresh" :: List.map (joiner p) rest.

Lemma run_calls sv first rest :
  wf sv -> inflight (shopsCache sv) = None ->
  Forall (fun rn => fresh (shopsCache sv) (snd rn) = false) (first :: rest) ->
  run' sv (List.map requestOf (first :: rest))
  = mkServer (mkCache (payload (shopsCache sv)) (fetchedAt (shopsCache sv))
                      (Some (started sv)))
             (S (started sv)) (started sv)
             (callersOf (started sv) first rest) (responses sv).
Proof.
  intros Hwf Hi Hf. inversion Hf as [|? ? Hhd Htl]; subst.
  destruct first as [req now]. simpl in Hhd.
  change (run' sv (List.map requestOf ((req, now) :: rest)))
    with (run' (step' sv (Request req now)) (List.map requestOf rest)).
  rewrite (step_start _ _ _ Hhd Hi).
  rewrite (run_join rest _ (started sv)); [|reflexivity|exact Htl].
  unfold wf in Hwf. rewrite Hi in Hwf. destruct Hwf as [-> ->]. reflexivity.
Qed.

End ServingFacts.

(** C1. Take a server with no refresh in flight and any number of calls
    (at least one) that arrive, before the refresh settles, at times when
    the cached snapshot is not fresh.  Exactly one [buildShopsPayload] call
    is started; the first caller and every later one await that same
    promise and nobody is answered before it settles; when it settles,
    all of them are answered at once from the one outcome: the payload it
    resolved to, or the error it was rejected with. *)
Theorem single_flight (seconds : Z) (sv : Server) (first : nat * Z)
  (rest : list (nat * Z)) :
  wf sv -> inflight (shopsCache sv) = None ->
  Forall (fun rn => isFreshCache seconds (shopsCache sv) (snd rn) = false)
         (first :: rest) ->
  let p := started sv in
  let callers := callersOf p first rest in
  let sv1 := run seconds sv (List.map requestOf (first :: rest)) in
  started sv1 = S (started sv)
  /\ inflight (shopsCache sv1) = Some p
  /\ waiting sv1 = callers
  /\ Forall (fun w => awaited w = p) callers
  /\ responses sv1 = responses sv
  /\ forall outcome now,
       let sv2 := step seconds sv1 (Settled p outcome now) in
       started sv2 = S (started sv) /\ finished sv2 = started sv2
       /\ waiting sv2 = []
       /\ responses sv2
          = (responses sv ++
             List.map (fun w => (request w,
                                 respond (shopsCache sv2) (observed outcome (source w))))
                      callers)%list
       /\ Forall (fun w => fst <$> observed outcome (source w) = outcome) callers.
Proof.
  intros Hwf Hi Hf p callers sv1.
  assert (E : sv1 = mkServer
            (mkCache (payload (shopsCache sv)) (fetchedAt (shopsCache sv)) (Some p))
            (S p) p callers (responses sv)) by now apply run_calls.
  assert (Hc : Forall (fun w => awaited w = p) callers).
  { constructor; [reflexivity|]. apply Forall_map. now apply Forall_true. }
  rewrite E. do 5 (split; [first [reflexivity | exact Hc]|]).
  intros outcome now sv2. unfold sv2.
  rewrite step_settled by (simpl; auto). simpl.
  repeat split. apply Forall_forall. intros w _. apply observed_payload.
Qed.

(** C2. Take a server with no refresh in flight and callers that arrive
    when the snapshot is not fresh, and let the refresh they share fail.
    If a snapshot is cached, however old, every caller gets it as a 200
    tagged memory-stale-on-error, and the slot keeps its payload and its
    [fetchedAt], so that a call made at any later time finds it not fresh
    and starts a new refresh; if none is cached, every caller gets a 500
    carrying the error. *)
Theorem stale_on_error (seconds : Z) (sv : Server) (first : nat * Z)
  (rest : list (nat * Z)) (message : string) (failedAt : Z) :
  wf sv -> inflight (shopsCache sv) = None ->
  Forall (fun rn => isFreshCache seconds (shopsCache sv) (snd rn) = false)
         (first :: rest) ->
  let callers := callersOf (started sv) first rest in
  let sv1 := run seconds sv
               (List.map requestOf (first :: rest)
                ++ [Settled (started sv) (Throw message) failedAt]) in
  responses sv1
  = (responses sv ++
     List.map (fun w => (request w,
                 match payload (shopsCache sv) with
                 | Some old => Ok200 old "memory-stale-on-error"
                 | None => Error500 message
                 end)) callers)%list
  /\ payload (shopsCache sv1) = payload (shopsCache sv)
  /\ fetchedAt (shopsCache sv1) = fetchedAt (shopsCache sv)
  /\ inflight (shopsCache sv1) = None
  /\ forall req later, snd first <= later ->
       isFreshCache seconds (shopsCache sv1) later = false /\
       let sv2 := step seconds sv1 (Request req later) in
       started sv2 = S (started sv1)
       /\ inflight (shopsCache sv2) = Some (started sv1)
       /\ waiting sv2 = [mkWaiter req (started sv1) "notion-refresh"].
Proof.
  intros Hwf Hi Hf callers sv1.
  assert (E : sv1 = mkServer
            (mkCache (payload (shopsCache sv)) (fetchedAt (shopsCache sv)) None)
            (S (started sv)) (S (started sv)) []
            (responses sv ++
             List.map (fun w => (request w,
                 match payload (shopsCache sv) with
                 | Some old => Ok200 old "memory-stale-on-error"
                 | None => Error500 message
                 end)) callers)).
  { unfold sv1, run. rewrite fold_left_app.
    change (fold_left (step seconds) (List.map requestOf (first :: rest)) sv)
      with (run seconds sv (List.map requestOf (first :: rest))).
    rewrite run_calls by assumption. cbn [fold_left].
    rewrite step_settled.
    - reflexivity.
    - reflexivity.
    - simpl. constructor; [reflexivity|]. apply Forall_map. now apply Forall_true. }
  rewrite E. do 4 (split; [reflexivity|]).
  intros req later Hlater.
  assert (Hstale : isFreshCache seconds
            (mkCache (payload (shopsCache sv)) (fetchedAt (shopsCache sv)) None)
            later = false).
  { inversion Hf as [|? ? Hhd _]; subst.
    exact (fresh_later seconds (shopsCache sv) _ _ Hhd Hlater). }
  split; [exact Hstale|].
  intros sv2. unfold sv2. rewrite step_start by (exact Hstale || reflexivity).
  repeat split.
Qed.

Definition demoPayload : Payload :=
  buildShopsPayloadFrom ordinalCompare (fun u => u) "db" demoData.

(** Three calls on a cold server share one refresh. *)
Lemma single_flight_witness :
  wf boot /\ inflight (shopsCache boot) = None /\
  let calls := [(1%nat, 10); (2%nat, 11); (3%nat, 12)] in
  Forall (fun rn => isFreshCache 300 (shopsCache boot) (snd rn) = false) calls /\
  let sv1 := run 300 boot (List.map requestOf calls) in
  started sv1 = 1%nat /\ inflight (shopsCache sv1) = Some 0%nat /\
  responses (step 300 sv1 (Settled 0 (Return demoPayload) 20))
  = [(1%nat, Ok200 demoPayload "notion-refresh");
     (2%nat, Ok200 demoPayload "memory-inflight");
     (3%nat, Ok200 demoPayload "memory-inflight")].
Proof.
  split; [exact wf_boot|]. split; [reflexivity|].
  intros calls. split; [repeat constructor|].
  pose proof (single_flight 300 boot (1%nat, 10) [(2%nat, 11); (3%nat, 12)]
                wf_boot eq_refl ltac:(repeat constructor)) as H.
  cbv zeta in H. destruct H as (H1 & H2 & _ & _ & _ & H3).
  split; [exact H1|]. split; [exact H2|].
  destruct (H3 (Return demoPayload) 20) as (_ & _ & _ & H4 & _). exact H4.
Defined.

(** A server holding a snapshot fetched at time 1000, long expired. *)
Definition expiredServer : Server :=
  mkServer (mkCache (Some demoPayload) 1000 None) 1 1 [] [].

Lemma stale_on_error_witness :
  wf expiredServer /\ inflight (shopsCache expiredServer) = None /\
  isFreshCache 300 (shopsCache expiredServer) 900000 = false /\
  let sv1 := run 300 expiredServer
               [Request 7 900000; Settled 1 (Throw "notion is down") 900500] in
  responses sv1 = [(7%nat, Ok200 demoPayload "memory-stale-on-error")]
  /\ fetchedAt (shopsCache sv1) = 1000
  /\ started (step 300 sv1 (Request 8 900600)) = 3%nat.
Proof.
  split; [split; reflexivity|]. split; [reflexivity|]. split; [reflexivity|].
  pose proof (stale_on_error 300 expiredServer (7%nat, 900000) [] "notion is down"
                900500 (conj eq_refl eq_refl) eq_refl ltac:(repeat constructor)) as H.
  cbv zeta in H. destruct H as (H1 & _ & H2 & _ & H3).
  split; [exact H1|]. split; [exact H2|].
  destruct (H3 8%nat 900600 ltac:(vm_compute; discriminate)) as (_ & H4 & _).
  exact H4.
Defined.

End DatasetCache.

(* ===================================================================== *)
(** * Freshness of the two caches *)
(* ===================================================================== *)

Module Freshness.

Import JS CacheStore DatasetCache.




End Freshness.

(* ===================================================================== *)
(** * GallerySession and ProgressiveLoader (client) *)
(* ===================================================================== *)

Module Gallery.

Definition PAGE_SIZE : nat := 12.

(** Callbacks handed to [window.requestAnimationFrame]. *)
Inductive Frame :=
| AfterRender        (* () => { maybeAutoLoad(); ensureViewportFilled(); } *)
| ClearAutoLoading.  (* () => { isAutoLoading = false; } *)

(** The script's module-level variables, the rendered cards and the queue
    of animation-frame callbacks. *)
Record State := mkState {
  allShops : list Shop;
  filteredShops : list Shop;
  activeCategory : string;
  activeTag : string;
  activeSummary : string;
  activeSort : string;
  currentPage : nat;
  isAutoLoading : bool;
  galleryCards : list Shop;
  loadMoreHidden : bool;
  frames : list Frame
}.

Definition initial : State :=
  mkState [] [] "all" "all" "" "recent" 1 false [] false [].

Definition normalizeText (value : string) : string :=
  JS.trim (JS.toLowerCase value).

Section Session.

(** [a.localeCompare(b)] *)
Variable localeCompare : string -> string -> Z.

Definition byTitleAsc (a b : Shop) : Z := localeCompare (title a) (title b).
Definition byTitleDesc (a b : Shop) : Z := localeCompare (title b) (title a).
Definition byEditedAsc (a b : Shop) : Z := editedAt a - editedAt b.
Definition byEditedDesc (a b : Shop) : Z := editedAt b - editedAt a.

Definition sortShops (activeSort : string) (shops : list Shop) : list Shop :=
  if String.eqb activeSort "az" then JS.sort byTitleAsc shops
  else if String.eqb activeSort "za" then JS.sort byTitleDesc shops
  else if String.eqb activeSort "oldest" then JS.sort byEditedAsc shops
  else JS.sort byEditedDesc shops.

Definition filterItems (s : State) : list Shop :=
  let summaryQuery := normalizeText (activeSummary s) in
  let items := allShops s in
  let items :=
    if negb (String.eqb (activeCategory s) "all")
    then List.filter (fun shop : Shop =>
           String.eqb (normalizeText (category shop))
                      (normalizeText (activeCategory s))) items
    else items in
  let items :=
    if negb (String.eqb (activeTag s) "all")
    then List.filter (fun shop : Shop =>
           existsb (String.eqb (normalizeText (activeTag s)))
                   (List.map normalizeText (tags shop))) items
    else items in
  let items :=
    if JS.truthyStr summaryQuery
    then List.filter (fun shop : Shop =>
           JS.includes summaryQuery (normalizeText (notes shop))) items
    else items in
  items.

Definition setFiltered (l : list Shop) (s : State) : State :=
  mkState (allShops s) l (activeCategory s) (activeTag s) (activeSummary s)
          (activeSort s) (currentPage s) (isAutoLoading s) (galleryCards s)
          (loadMoreHidden s) (frames s).

Definition setPage (p : nat) (s : State) : State :=
  mkState (allShops s) (filteredShops s) (activeCategory s) (activeTag s)
          (activeSummary s) (activeSort s) p (isAutoLoading s)
          (galleryCards s) (loadMoreHidden s) (frames s).

Definition setFilters (c t q : string) (s : State) : State :=
  mkState (allShops s) (filteredShops s) c t q (activeSort s) (currentPage s)
          (isAutoLoading s) (galleryCards s) (loadMoreHidden s) (frames s).

Definition setSort (o : string) (s : State) : State :=
  mkState (allShops s) (filteredShops s) (activeCategory s) (activeTag s)
          (activeSummary s) o (currentPage s) (isAutoLoading s)
          (galleryCards s) (loadMoreHidden s) (frames s).

Definition setAutoLoading (b : bool) (s : State) : State :=
  mkState (allShops s) (filteredShops s) (activeCategory s) (activeTag s)
          (activeSummary s) (activeSort s) (currentPage s) b
          (galleryCards s) (loadMoreHidden s) (frames s).

Definition setDom (cards : list Shop) (hidden : bool) (fs : list Frame)
  (s : State) : State :=
  mkState (allShops s) (filteredShops s) (activeCategory s) (activeTag s)
          (activeSummary s) (activeSort s) (currentPage s) (isAutoLoading s)
          cards hidden fs.

Definition computeFilteredShops (s : State) : State :=
  setFiltered (sortShops (activeSort s) (filterItems s)) s.

Definition visibleCount (s : State) : nat :=
  Nat.min (length (filteredShops s)) (currentPage s * PAGE_SIZE).

Definition visibleShops (s : State) : list Shop :=
  firstn (visibleCount s) (filteredShops s).

Definition hasMoreShops (s : State) : bool :=
  (visibleCount s <? length (filteredShops s))%nat.

(** [renderGallery]: replaces the cards, shows or hides the load-more
    control and schedules the after-render checks. *)
Definition renderGallery (s : State) : State :=
  setDom (visibleShops s) (negb (hasMoreShops s)) (frames s ++ [AfterRender]) s.

Definition refreshAndRender (resetPage : bool) (s : State) : State :=
  let s := if resetPage then setPage 1 s else s in
  renderGallery (computeFilteredShops s).

Definition resetFilters (s : State) : State :=
  refreshAndRender true (setFilters "all" "all" "" s).

Definition loadMore (s : State) : State :=
  if negb (hasMoreShops s) then s
  else renderGallery (setPage (currentPage s + 1) s).

(** [nearBottom] is what the layout reports when the handler runs. *)
Definition maybeAutoLoad (nearBottom : bool) (s : State) : State :=
  if isAutoLoading s then s
  else if negb (hasMoreShops s) then s
  else if negb nearBottom then s
  else
    let s := loadMore (setAutoLoading true s) in
    setDom (galleryCards s) (loadMoreHidden s) (frames s ++ [ClearAutoLoading]) s.

Definition ensureViewportFilled (shortPage : bool) (s : State) : State :=
  if negb (hasMoreShops s) then s
  else if negb shortPage then s
  else loadMore s.

(** What the browser delivers to the script. *)
Inductive Event :=
| ClickLoadMore
| ChangeCategory (value : string)
| ChangeTag (value : string)
| InputSummary (value : string)
| ChangeSort (value : string)
| ClickReset
| Scrolled (nearBottom : bool)            (* scroll, resize, sentinel seen *)
| AnimationFrame (nearBottom shortPage : bool).

Definition runFrame (f : Frame) (nearBottom shortPage : bool) (s : State) : State :=
  match f with
  | AfterRender => ensureViewportFilled shortPage (maybeAutoLoad nearBottom s)
  | ClearAutoLoading => setAutoLoading false s
  end.

Definition handle (e : Event) (s : State) : State :=
  match e with
  | ClickLoadMore => loadMore s
  | ChangeCategory v =>
      refreshAndRender true (setFilters v (activeTag s) (activeSummary s) s)
  | ChangeTag v =>
      refreshAndRender true (setFilters (activeCategory s) v (activeSummary s) s)
  | InputSummary v =>
      refreshAndRender true (setFilters (activeCategory s) (activeTag s) v s)
  | ChangeSort v => refreshAndRender true (setSort v s)
  | ClickReset => resetFilters s
  | Scrolled nb => maybeAutoLoad nb s
  | AnimationFrame nb sp =>
      match frames s with
      | [] => s
      | f :: rest =>
          runFrame f nb sp (setDom (galleryCards s) (loadMoreHidden s) rest s)
      end
  end.

(** An event that changes a filter or the sort. *)
Definition changesQuery (e : Event) : bool :=
  match e with
  | ChangeCategory _ | ChangeTag _ | InputSummary _ | ChangeSort _
  | ClickReset => true
  | _ => false
  end.

End Session.

(** ** Sorting *)

(** The comparator [sortShops] hands to [sort] for a given [activeSort]. *)
Definition comparatorOf (localeCompare : string -> string -> Z)
  (activeSort : string) : Shop -> Shop -> Z :=
  if String.eqb activeSort "az" then byTitleAsc localeCompare
  else if String.eqb activeSort "za" then byTitleDesc localeCompare
  else if String.eqb activeSort "oldest" then byEditedAsc
  else byEditedDesc.

Lemma sortShops_comparatorOf lc o l :
  sortShops lc o l = JS.sort (comparatorOf lc o) l.
Proof.
  unfold sortShops, comparatorOf.
  destruct (String.eqb o "az"); [reflexivity|].
  destruct (String.eqb o "za"); [reflexivity|].
  destruct (String.eqb o "oldest"); reflexivity.
Qed.

Lemma byEdited_consistent :
  JS.consistent byEditedAsc /\ JS.consistent byEditedDesc.
Proof. unfold byEditedAsc, byEditedDesc; repeat split; intros; lia. Qed.

Lemma byTitle_consistent lc :
  JS.consistent lc ->
  JS.consistent (byTitleAsc lc) /\ JS.consistent (byTitleDesc lc).
Proof.
  intros [F T]. unfold byTitleAsc, byTitleDesc. repeat split; intros; eauto.
Qed.

Lemma comparatorOf_consistent lc o :
  JS.consistent lc -> JS.consistent (comparatorOf lc o).
Proof.
  intros H. unfold comparatorOf.
  destruct (String.eqb o "az"); [apply byTitle_consistent, H|].
  destruct (String.eqb o "za"); [apply byTitle_consistent, H|].
  destruct (String.eqb o "oldest"); apply byEdited_consistent.
Qed.

(** C8. For a consistent [localeCompare], [sortShops] returns a
    permutation of its argument that is ordered by edit timestamp,
    descending for "recent" and ascending for "oldest", and by
    [localeCompare] on titles, ascending for "az" and descending for "za";
    shops the comparator ties keep their relative order; and titles
    Zed, Acme, Mono come out as Acme, Mono, Zed under "az" and as
    Zed, Mono, Acme under "za". *)
Theorem sortShops_ordered (localeCompare : string -> string -> Z)
  (Hlc : JS.consistent localeCompare) (shops : list Shop) :
  (forall o, Permutation (sortShops localeCompare o shops) shops)
  /\ StronglySorted (fun a b : Shop => editedAt b <= editedAt a)
       (sortShops localeCompare "recent" shops)
  /\ StronglySorted (fun a b : Shop => editedAt a <= editedAt b)
       (sortShops localeCompare "oldest" shops)
  /\ StronglySorted (fun a b : Shop => localeCompare (title a) (title b) <= 0)
       (sortShops localeCompare "az" shops)
  /\ StronglySorted (fun a b : Shop => localeCompare (title b) (title a) <= 0)
       (sortShops localeCompare "za" shops)
  /\ (forall o k,
        List.filter (JS.tied (comparatorOf localeCompare o) k)
                    (sortShops localeCompare o shops)
        = List.filter (JS.tied (comparatorOf localeCompare o) k) shops)
  /\ (forall z a m : Shop,
        title z = "Zed" -> title a = "Acme" -> title m = "Mono" ->
        localeCompare "Acme" "Mono" < 0 -> localeCompare "Mono" "Zed" < 0 ->
        localeCompare "Acme" "Zed" < 0 ->
        sortShops localeCompare "az" [z; a; m] = [a; m; z] /\
        sortShops localeCompare "za" [z; a; m] = [z; m; a]).
Proof.
  pose proof (byTitle_consistent _ Hlc) as [Haz Hza].
  pose proof byEdited_consistent as [Hold Hrec].
  split; [intros o; rewrite sortShops_comparatorOf; apply JS.sort_perm|].
  split.
  { eapply JS.StronglySorted_weaken; [|apply (JS.sort_sorted byEditedDesc), Hrec].
    unfold JS.before, byEditedDesc. intros; lia. }
  split.
  { eapply JS.StronglySorted_weaken; [|apply (JS.sort_sorted byEditedAsc), Hold].
    unfold JS.before, byEditedAsc. intros; lia. }
  split; [exact (JS.sort_sorted (byTitleAsc localeCompare) shops Haz)|].
  split; [exact (JS.sort_sorted (byTitleDesc localeCompare) shops Hza)|].
  split.
  { intros o k. rewrite sortShops_comparatorOf.
    apply JS.sort_stable, comparatorOf_consistent, Hlc. }
  intros z a m Hz Ha Hm AM MZ AZ. destruct Hlc as [F _].
  pose proof (F "Acme" "Mono") as F1. pose proof (F "Mono" "Zed") as F2.
  pose proof (F "Acme" "Zed") as F3.
  unfold sortShops; simpl. unfold byTitleAsc, byTitleDesc.
  assert (E1 : (localeCompare "Acme" "Mono" >? 0) = false) by lia.
  assert (E2 : (localeCompare "Zed" "Acme" >? 0) = true) by lia.
  assert (E3 : (localeCompare "Zed" "Mono" >? 0) = true) by lia.
  assert (E4 : (localeCompare "Mono" "Acme" >? 0) = true) by lia.
  assert (E5 : (localeCompare "Mono" "Zed" >? 0) = false) by lia.
  repeat (rewrite ?Hz, ?Ha, ?Hm, ?E1, ?E2, ?E3, ?E4, ?E5; simpl).
  split; reflexivity.
Qed.

Definition zed : Shop :=
  mkShop (mkShopRecord "s1" "Zed" "https://zed.example/" "" [] "" 3) "".
Definition acme : Shop :=
  mkShop (mkShopRecord "s2" "Acme" "https://acme.example/" "" [] "" 2) "".
Definition mono : Shop :=
  mkShop (mkShopRecord "s3" "Mono" "https://mono.example/" "" [] "" 1) "".

Lemma sortShops_ordered_witness :
  JS.consistent JS.ordinalCompare /\
  sortShops JS.ordinalCompare "az" [zed; acme; mono] = [acme; mono; zed] /\
  sortShops JS.ordinalCompare "za" [zed; acme; mono] = [zed; mono; acme].
Proof.
  split; [exact JS.ordinalCompare_consistent|].
  exact (proj2 (proj2 (proj2 (proj2 (proj2 (proj2
           (sortShops_ordered JS.ordinalCompare JS.ordinalCompare_consistent
              [zed; acme; mono]))))))
           zed acme mono eq_refl eq_refl eq_refl eq_refl eq_refl eq_refl).
Defined.

(** Two shops with one title stay in their order under "az" and under
    "za": descending order does not reverse ties. *)
Definition acme2 : Shop :=
  mkShop (mkShopRecord "s4" "Acme" "https://acme.example/2" "" [] "" 0) "".

Example sortShops_ties :
  sortShops JS.ordinalCompare "az" [acme; zed; acme2] = [acme; acme2; zed] /\
  sortShops JS.ordinalCompare "za" [acme; zed; acme2] = [zed; acme; acme2].
Proof. split; reflexivity. Qed.

(** ** Paging *)

Lemma visibleCount_le s : (visibleCount s <= length (filteredShops s))%nat.
Proof. unfold visibleCount. lia. Qed.

Lemma visibleShops_length s : length (visibleShops s) = visibleCount s.
Proof.
  unfold visibleShops. rewrite length_firstn. pose proof (visibleCount_le s). lia.
Qed.

Lemma hasMoreShops_iff s :
  hasMoreShops s = true <-> (visibleCount s < length (filteredShops s))%nat.
Proof. unfold hasMoreShops. apply Nat.ltb_lt. Qed.

Lemma loadMore_more s :
  hasMoreShops s = true ->
  loadMore s = renderGallery (setPage (currentPage s + 1) s).
Proof. intros H. unfold loadMore. now rewrite H. Qed.

Lemma loadMore_done s : hasMoreShops s = false -> loadMore s = s.
Proof. intros H. unfold loadMore. now rewrite H. Qed.

Lemma loadMore_filtered s : filteredShops (loadMore s) = filteredShops s.
Proof. unfold loadMore. now destruct (hasMoreShops s). Qed.

Lemma loadMore_page s :
  currentPage (loadMore s)
  = if hasMoreShops s then (currentPage s + 1)%nat else currentPage s.
Proof. unfold loadMore. now destruct (hasMoreShops s). Qed.

(** [visibleCount] after [n] calls of [loadMore]. *)
Definition visibleAfter (n : nat) (s : State) : nat :=
  visibleCount (Nat.iter n loadMore s).

(** C6. The number of visible items is
    [min (length filteredShops) (currentPage * 12)]; [loadMore] adds exactly
    one to [currentPage] when [visibleCount < length filteredShops] and
    leaves the whole state alone otherwise; with 30 filtered items on page
    1 the visible count goes 12, 24, 30 and a third call changes nothing. *)
Theorem loadMore_pages (s : State) :
  length (visibleShops s) = Nat.min (length (filteredShops s)) (currentPage s * 12)
  /\ visibleCount s = Nat.min (length (filteredShops s)) (currentPage s * 12)
  /\ (currentPage (loadMore s) = (currentPage s + 1)%nat
       <-> (visibleCount s < length (filteredShops s))%nat)
  /\ (~ (visibleCount s < length (filteredShops s))%nat -> loadMore s = s)
  /\ filteredShops (loadMore s) = filteredShops s
  /\ (length (filteredShops s) = 30%nat -> currentPage s = 1%nat ->
       visibleAfter 0 s = 12%nat /\ visibleAfter 1 s = 24%nat /\
       visibleAfter 2 s = 30%nat /\ visibleAfter 3 s = 30%nat /\
       Nat.iter 3 loadMore s = Nat.iter 2 loadMore s).
Proof.
  split; [apply visibleShops_length|].
  split; [reflexivity|].
  split.
  { rewrite loadMore_page, <- hasMoreShops_iff.
    destruct (hasMoreShops s); split; intros; try lia; congruence. }
  split.
  { intros H. apply loadMore_done. rewrite <- hasMoreShops_iff in H.
    now destruct (hasMoreShops s). }
  split; [apply loadMore_filtered|].
  intros Hlen Hpage.
  assert (step : forall t, length (filteredShops t) = 30%nat ->
            currentPage (loadMore t)
            = if (currentPage t * 12 <? 30)%nat
              then S (currentPage t) else currentPage t).
  { intros t Ht. rewrite loadMore_page. unfold hasMoreShops, visibleCount.
    rewrite Ht. unfold PAGE_SIZE.
    destruct (Nat.ltb_spec (currentPage t * 12) 30);
      destruct (Nat.ltb_spec (Nat.min 30 (currentPage t * 12)) 30); lia. }
  assert (vis : forall t p, length (filteredShops t) = 30%nat ->
            currentPage t = p -> visibleCount t = Nat.min 30 (p * 12)).
  { intros t p Ht Hp. unfold visibleCount. now rewrite Ht, Hp. }
  set (s1 := loadMore s). set (s2 := loadMore s1).
  assert (L1 : length (filteredShops s1) = 30%nat)
    by (unfold s1; now rewrite loadMore_filtered).
  assert (L2 : length (filteredShops s2) = 30%nat)
    by (unfold s2; now rewrite loadMore_filtered).
  assert (P1 : currentPage s1 = 2%nat)
    by (unfold s1; rewrite step, Hpage by assumption; reflexivity).
  assert (P2 : currentPage s2 = 3%nat)
    by (unfold s2; rewrite step, P1 by assumption; reflexivity).
  assert (D : loadMore s2 = s2).
  { apply loadMore_done. unfold hasMoreShops.
    rewrite (vis s2 3%nat), L2 by assumption. reflexivity. }
  unfold visibleAfter. simpl Nat.iter. fold s1. fold s2. rewrite D.
  rewrite (vis s 1%nat), (vis s1 2%nat), (vis s2 3%nat) by assumption.
  repeat split; reflexivity.
Qed.

(** A state with 30 filtered items on page 1. *)
Definition demoShop : Shop :=
  mkShop (mkShopRecord "1" "Acme" "https://acme.example/" "food" ["minimalism"]
                       "" 1700000000000)
         "/api/screenshot?u=https%3A%2F%2Facme.example%2F&sv=v3".

Definition thirty : State :=
  mkState (repeat demoShop 30) (repeat demoShop 30) "all" "all" "" "recent"
          1 false [] false [].

Lemma loadMore_pages_witness :
  visibleAfter 0 thirty = 12%nat /\ visibleAfter 1 thirty = 24%nat /\
  visibleAfter 2 thirty = 30%nat /\ visibleAfter 3 thirty = 30%nat /\
  Nat.iter 3 loadMore thirty = Nat.iter 2 loadMore thirty.
Proof.
  exact (proj2 (proj2 (proj2 (proj2 (proj2 (loadMore_pages thirty)))))
           eq_refl eq_refl).
Defined.

(** [visibleCount] never shrinks when the page grows. *)
Lemma visibleCount_mono s p :
  (currentPage s <= p)%nat -> (visibleCount s <= visibleCount (setPage p s))%nat.
Proof. unfold visibleCount, PAGE_SIZE. simpl. nia. Qed.

(** The page starts at 1 and no event takes it below. *)
Lemma handle_page_positive lc e s :
  (1 <= currentPage s)%nat -> (1 <= currentPage (handle lc e s))%nat.
Proof.
  assert (L : forall t, (1 <= currentPage t)%nat -> (1 <= currentPage (loadMore t))%nat).
  { intros t Ht. rewrite loadMore_page. destruct (hasMoreShops t); lia. }
  assert (M : forall nb t, (1 <= currentPage t)%nat ->
                (1 <= currentPage (maybeAutoLoad nb t))%nat).
  { intros nb t Ht. unfold maybeAutoLoad.
    destruct (isAutoLoading t); [exact Ht|].
    destruct (hasMoreShops t); [|exact Ht]. destruct nb; [|exact Ht].
    simpl. apply L. exact Ht. }
  assert (V : forall sp t, (1 <= currentPage t)%nat ->
                (1 <= currentPage (ensureViewportFilled sp t))%nat).
  { intros sp t Ht. unfold ensureViewportFilled.
    destruct (hasMoreShops t); [|exact Ht]. destruct sp; [|exact Ht]. now apply L. }
  intros H. destruct e; simpl; try (now apply L); try (now apply M); try lia.
  destruct (frames s) as [|f rest]; [exact H|].
  destruct f; simpl; [|exact H]. apply V, M. exact H.
Qed.

(** ** Filters, sort and page *)

(** Two states with the same active filters and the same sort. *)
Definition sameQuery (s t : State) : Prop :=
  activeCategory t = activeCategory s /\ activeTag t = activeTag s /\
  activeSummary t = activeSummary s /\ activeSort t = activeSort s.

Lemma sameQuery_refl s : sameQuery s s.
Proof. repeat split. Qed.

Lemma sameQuery_trans s t u : sameQuery s t -> sameQuery t u -> sameQuery s u.
Proof. unfold sameQuery. intuition congruence. Qed.

Lemma loadMore_sameQuery s : sameQuery s (loadMore s).
Proof. unfold loadMore. destruct (hasMoreShops s); repeat split. Qed.

Lemma maybeAutoLoad_sameQuery nb s : sameQuery s (maybeAutoLoad nb s).
Proof.
  unfold maybeAutoLoad.
  destruct (isAutoLoading s); [apply sameQuery_refl|].
  destruct (hasMoreShops s); [|apply sameQuery_refl].
  destruct nb; [|apply sameQuery_refl]. simpl.
  destruct (loadMore_sameQuery (setAutoLoading true s)) as (?&?&?&?).
  repeat split; assumption.
Qed.

Lemma ensureViewportFilled_sameQuery sp s : sameQuery s (ensureViewportFilled sp s).
Proof.
  unfold ensureViewportFilled.
  destruct (hasMoreShops s); [|apply sameQuery_refl].
  destruct sp; [|apply sameQuery_refl]. apply loadMore_sameQuery.
Qed.

Lemma refreshAndRender_page lc s : currentPage (refreshAndRender lc true s) = 1%nat.
Proof. reflexivity. Qed.

Lemma refreshAndRender_sameQuery lc b s : sameQuery s (refreshAndRender lc b s).
Proof. destruct b; repeat split. Qed.

(** C7. An event that changes a filter (category, tag, summary text, reset)
    or the sort records the new value and leaves [currentPage] at 1,
    whatever it was; every other event, [loadMore] in particular, leaves
    the active filters and the sort as they were. *)
Theorem query_change_resets_page (localeCompare : string -> string -> Z)
  (e : Event) (s : State) :
  (changesQuery e = true -> currentPage (handle localeCompare e s) = 1%nat)
  /\ (changesQuery e = false -> sameQuery s (handle localeCompare e s))
  /\ sameQuery s (loadMore s)
  /\ (forall v, activeCategory (handle localeCompare (ChangeCategory v) s) = v)
  /\ (forall v, activeTag (handle localeCompare (ChangeTag v) s) = v)
  /\ (forall v, activeSummary (handle localeCompare (InputSummary v) s) = v)
  /\ (forall v, activeSort (handle localeCompare (ChangeSort v) s) = v).
Proof.
  split; [|split; [|split; [apply loadMore_sameQuery | repeat split]]].
  - destruct e; simpl; intros H; try discriminate H; reflexivity.
  - destruct e; simpl; intros H; try discriminate H.
    + apply loadMore_sameQuery.
    + apply maybeAutoLoad_sameQuery.
    + destruct (frames s) as [|f rest]; [apply sameQuery_refl|].
      set (s0 := setDom _ _ rest s).
      assert (H0 : sameQuery s s0) by (repeat split).
      apply (sameQuery_trans _ _ _ H0).
      destruct f; simpl; [|repeat split].
      eapply sameQuery_trans; [apply maybeAutoLoad_sameQuery|].
      apply ensureViewportFilled_sameQuery.
Qed.

(** On page 3, choosing another category brings the session back to page 1;
    a click on "load more" keeps filters and sort. *)
Definition onPageThree : State :=
  mkState (repeat demoShop 30) (repeat demoShop 30) "all" "all" "" "recent"
          3 false [] false [].

Lemma query_change_resets_page_witness :
  currentPage (handle JS.ordinalCompare (ChangeCategory "food") onPageThree) = 1%nat
  /\ sameQuery thirty (handle JS.ordinalCompare ClickLoadMore thirty).
Proof.
  split.
  - exact (proj1 (query_change_resets_page JS.ordinalCompare
                    (ChangeCategory "food") onPageThree) eq_refl).
  - exact (proj1 (proj2 (query_change_resets_page JS.ordinalCompare
                    ClickLoadMore thirty)) eq_refl).
Defined.

End Gallery.

(* ===================================================================== *)
(** * ImagePreloader (client) *)
(* ===================================================================== *)

Module ImagePreloader.

Inductive Promise := Pending | Fulfilled | Rejected.

(** What the image element reports. *)
Inductive ImgEvent := Load | Error.

(** The closure of one call of [preloadImageWithFallback]. *)
Record State := mkState {
  src : string;            (* img.src, as the element reads it back *)
  settled : bool;
  timer : bool;            (* the timeout is scheduled and not cleared *)
  promise : Promise;
  resolveCalls : nat;      (* calls of [resolve] made so far *)
  settledAt : option Z;    (* when [resolve] was first called *)
  requests : list string   (* assignments to img.src, latest first *)
}.

Section Preload.

(** The URL [img.src] reads back after [img.src = u]. *)
Variable resolveUrl : string -> string.
Variables (primaryUrl fallbackUrl : string) (timeoutMs : Z).

(** [window.setTimeout] takes a negative delay as 0. *)
Definition deadline : Z := Z.max 0 timeoutMs.

(** The state the executor leaves behind, at time 0. *)
Definition start : State :=
  mkState (resolveUrl primaryUrl) false true Pending 0 None [primaryUrl].

Definition finish (now : Z) (st : State) : State :=
  if settled st then st
  else mkState (src st) true (timer st) Fulfilled (S (resolveCalls st))
               (Some now) (requests st).

Definition clearTimeout (st : State) : State :=
  mkState (src st) (settled st) false (promise st) (resolveCalls st)
          (settledAt st) (requests st).

Definition setSrc (u : string) (st : State) : State :=
  mkState (resolveUrl u) (settled st) (timer st) (promise st)
          (resolveCalls st) (settledAt st) (u :: requests st).

Definition onload (now : Z) (st : State) : State :=
  finish now (clearTimeout st).

Definition onerror (now : Z) (st : State) : State :=
  if JS.truthyStr fallbackUrl && negb (String.eqb (src st) fallbackUrl)
  then setSrc fallbackUrl st
  else finish now (clearTimeout st).

(** The timer callback: it runs at [deadline] unless the timer was cleared. *)
Definition timerFires (st : State) : State :=
  if timer st then finish deadline (clearTimeout st) else st.

Definition onImg (now : Z) (e : ImgEvent) (st : State) : State :=
  match e with
  | Load => onload now st
  | Error => onerror now st
  end.

(** Delivery of an image event stamped [t]: a timer that is due runs first. *)
Definition deliver (st : State) (te : Z * ImgEvent) : State :=
  let st := if deadline <=? fst te then timerFires st else st in
  onImg (fst te) (snd te) st.

(** The state at time [T], given the image events of the whole run. *)
Definition stateAt (T : Z) (evs : list (Z * ImgEvent)) : State :=
  let st := fold_left deliver (List.filter (fun te => fst te <=? T) evs) start in
  if deadline <=? T then timerFires st else st.

(** Not settled: the timer is still there to settle it.  Settled: [resolve]
    ran once, no later than the deadline. *)
Definition inv (st : State) : Prop :=
  promise st <> Rejected /\
  if settled st
  then promise st = Fulfilled /\ resolveCalls st = 1%nat /\
       exists t, settledAt st = Some t /\ t <= deadline
  else timer st = true /\ promise st = Pending /\ resolveCalls st = 0%nat /\
       settledAt st = None.

(** At most one switch, and it is to [fallbackUrl]. *)
Definition switchedOnce (st : State) : Prop :=
  (requests st = [primaryUrl] /\ src st = resolveUrl primaryUrl) \/
  (requests st = [fallbackUrl; primaryUrl] /\ src st = fallbackUrl).

End Preload.

Arguments deadline timeoutMs /.

Section PreloadFacts.

Variable resolveUrl : string -> string.
Variables (primaryUrl fallbackUrl : string) (timeoutMs : Z).

Local Abbreviation inv' := (inv timeoutMs).
Local Abbreviation onImg' := (onImg resolveUrl fallbackUrl).
Local Abbreviation timerFires' := (timerFires timeoutMs).
Local Abbreviation deliver' := (deliver resolveUrl fallbackUrl timeoutMs).
Local Abbreviation once' := (switchedOnce resolveUrl primaryUrl fallbackUrl).

(** A second settlement attempt changes nothing. *)
Lemma finish_settled now st : settled st = true -> finish now st = st.
Proof. intros H. unfold finish. now rewrite H. Qed.

Lemma inv_start : inv' (start resolveUrl primaryUrl).
Proof. split; [discriminate|]. simpl. auto. Qed.

Lemma inv_finish now st :
  inv' st -> (settled st = false -> now <= Z.max 0 timeoutMs) ->
  inv' (finish now (clearTimeout st)) /\
  settled (finish now (clearTimeout st)) = true.
Proof.
  intros [Hr H] Hnow. unfold inv, finish, clearTimeout. simpl.
  destruct (settled st) eqn:E; simpl.
  - rewrite ?E. auto.
  - destruct H as (_ & _ & Hc & _). rewrite Hc.
    repeat split; try discriminate.
    exists now. split; [reflexivity|]. now apply Hnow.
Qed.

Lemma inv_timerFires st :
  inv' st -> inv' (timerFires' st) /\ settled (timerFires' st) = true.
Proof.
  intros H. unfold timerFires. destruct (timer st) eqn:Et.
  - apply inv_finish; [exact H|]. simpl. lia.
  - split; [exact H|]. destruct H as [_ H].
    destruct (settled st); [reflexivity|]. destruct H as [H _]. congruence.
Qed.

Lemma inv_setSrc u st : inv' st -> inv' (setSrc resolveUrl u st).
Proof. intros H. exact H. Qed.

Lemma inv_onImg now e st :
  inv' st -> (settled st = false -> now <= Z.max 0 timeoutMs) ->
  inv' (onImg' now e st).
Proof.
  intros H Hnow. destruct e; simpl.
  - now apply inv_finish.
  - unfold onerror.
    destruct (JS.truthyStr fallbackUrl && negb (String.eqb (src st) fallbackUrl)).
    + now apply inv_setSrc.
    + now apply inv_finish.
Qed.

Lemma inv_deliver st te : inv' st -> inv' (deliver' st te).
Proof.
  intros H. unfold deliver. simpl.
  destruct (Z.leb_spec (Z.max 0 timeoutMs) (fst te)) as [Hle|Hlt].
  - destruct (inv_timerFires st H) as [H1 H2].
    apply inv_onImg; [exact H1|]. congruence.
  - apply inv_onImg; [exact H|]. lia.
Qed.

Lemma inv_fold evs st : inv' st -> inv' (fold_left deliver' evs st).
Proof.
  revert st. induction evs as [|te evs IH]; intros st H; simpl; [exact H|].
  apply IH, inv_deliver, H.
Qed.

Lemma once_onImg now e st :
  resolveUrl fallbackUrl = fallbackUrl -> once' st -> once' (onImg' now e st).
Proof.
  intros Hres H.
  assert (F : forall t, once' t -> once' (finish now (clearTimeout t))).
  { intros t Ht. unfold finish, clearTimeout. simpl.
    destruct (settled t); exact Ht. }
  destruct e; simpl; [now apply F|]. unfold onerror.
  destruct (JS.truthyStr fallbackUrl); simpl; [|now apply F].
  destruct (String.eqb_spec (src st) fallbackUrl) as [E|N]; simpl; [now apply F|].
  destruct H as [[Hq Hs]|[Hq Hs]]; [|contradiction].
  right. unfold setSrc; simpl. rewrite Hq. auto.
Qed.

Lemma once_timerFires st : once' st -> once' (timerFires' st).
Proof.
  intros H. unfold timerFires, finish, clearTimeout. simpl.
  destruct (timer st); [|exact H]. destruct (settled st); exact H.
Qed.

Lemma once_fold evs st :
  resolveUrl fallbackUrl = fallbackUrl ->
  once' st -> once' (fold_left deliver' evs st).
Proof.
  intros Hres. revert st.
  induction evs as [|te evs IH]; intros st H; simpl; [exact H|].
  apply IH. unfold deliver. apply once_onImg; [exact Hres|].
  destruct (deadline timeoutMs <=? fst te); [apply once_timerFires|]; exact H.
Qed.

End PreloadFacts.

(** C9. At every time [T] and for every run of image events, the promise
    of [preloadImageWithFallback] is not rejected and [resolve] has been
    called at most once; once settled, another [finish] changes nothing;
    from the deadline on (the timeout, a negative one counting as 0) the
    promise is fulfilled, by exactly one call of [resolve] made no later
    than the deadline, whether the primary load, the fallback load or
    neither succeeded; and when [fallbackUrl] reads back unchanged from
    [img.src], the image is switched to it at most once. *)
Theorem preload_always_settles (resolveUrl : string -> string)
  (primaryUrl fallbackUrl : string) (timeoutMs T : Z)
  (evs : list (Z * ImgEvent)) :
  let st := stateAt resolveUrl primaryUrl fallbackUrl timeoutMs T evs in
  promise st <> Rejected
  /\ (resolveCalls st <= 1)%nat
  /\ (forall now, settled st = true -> finish now st = st)
  /\ (deadline timeoutMs <= T ->
       promise st = Fulfilled /\ resolveCalls st = 1%nat /\
       exists t, settledAt st = Some t /\ t <= deadline timeoutMs)
  /\ (0 <= timeoutMs -> deadline timeoutMs = timeoutMs)
  /\ (resolveUrl fallbackUrl = fallbackUrl ->
       switchedOnce resolveUrl primaryUrl fallbackUrl st).
Proof.
  intros st. unfold stateAt in st.
  set (st0 := fold_left _ _ _) in st.
  assert (H0 : inv timeoutMs st0) by apply inv_fold, inv_start.
  assert (H : inv timeoutMs st).
  { unfold st. destruct (deadline timeoutMs <=? T); [|exact H0].
    now apply inv_timerFires. }
  split; [apply H|].
  split.
  { destruct H as [_ H]. destruct (settled st).
    - destruct H as (_ & -> & _). lia.
    - destruct H as (_ & _ & -> & _). lia. }
  split; [intros now; apply finish_settled|].
  split.
  { intros HT. assert (Hs : settled st = true).
    { unfold st. rewrite (proj2 (Z.leb_le _ _) HT). now apply inv_timerFires. }
    destruct H as [_ H]. rewrite Hs in H. exact H. }
  split; [simpl; lia|].
  intros Hres. unfold st.
  destruct (deadline timeoutMs <=? T); [apply once_timerFires|];
    apply once_fold; auto; now left.
Qed.

(** A primary URL that fails at once, a fallback that never answers and a
    timeout of 1000 ms: settled at 1000 by the timer. *)
Lemma preload_always_settles_witness :
  let st := stateAt (fun u => u) "bad" "good" 1000 1000 [(100, Error)] in
  promise st = Fulfilled /\ resolveCalls st = 1%nat /\
  exists t, settledAt st = Some t /\ t <= 1000.
Proof.
  exact (proj1 (proj2 (proj2 (proj2
           (preload_always_settles (fun u => u) "bad" "good" 1000 1000
              [(100, Error)]))))
           ltac:(vm_compute; discriminate)).
Defined.

End ImagePreloader.

(* ===================================================================== *)
(** * ScreenshotCache: the [/api/screenshot] endpoint (server) *)
(* ===================================================================== *)

Module ScreenshotEndpoint.

Import JS.

(** An answer of the [/api/screenshot] handler. *)
Inductive HttpResponse :=
| Image200 (contentType : CacheStore.JSValue) (body : string)
| BadRequest400 (error : string)
| BadGateway502 (error details : string).

Section Endpoint.

Variable JSON_parse : string -> option CacheStore.JSValue.
Variable JSON_stringify : CacheStore.JSValue -> string.
Variable toStringJS : CacheStore.JSValue -> option string.
Variable toNumberJS : CacheStore.JSValue -> option CacheStore.JSNum.
Variable screenshotCacheDir : string.
Variable screenshotTtlHours : Z.
Variable encodeURIComponent : string -> string.
Variable Net : Type.
Variable fetch : Net -> string -> Outcome ScreenshotFetcher.Response * Net.

(** [new URL(value)] parses and its protocol is http: or https:. *)
Variable isWebUrl : string -> bool.
(** SHA-256 of a string, as lower-case hex. *)
Variable sha256hex : string -> string.
(** [res.setHeader("content-type", v)]: throws on a value that is no
    header value. *)
Variable setHeader : CacheStore.JSValue -> Outcome unit.

Definition screenshotVersion : string := "v3".

Definition cacheKeyForUrl (url : string) : string :=
  sha256hex (screenshotVersion +:+ ":" +:+ url).

Local Abbreviation readCacheEntry :=
  (CacheStore.readCacheEntry JSON_parse toStringJS toNumberJS
     screenshotCacheDir screenshotTtlHours).
Local Abbreviation writeCacheEntry :=
  (CacheStore.writeCacheEntry JSON_stringify screenshotCacheDir).
Local Abbreviation fetchScreenshotBuffer :=
  (ScreenshotFetcher.fetchScreenshotBuffer encodeURIComponent Net fetch).

(** [res.setHeader(...); res.setHeader(...); res.send(body)] inside the
    handler's [try]. *)
Definition sendImage (contentType : CacheStore.JSValue) (body : string)
  : Outcome HttpResponse :=
  _ ← setHeader contentType; mret (Image200 contentType body).

(** The [try] block of the handler.  [now] is the clock when the cache is
    read, [written] the clock when a fetched image is stored; the cache
    directory is writable. *)
Definition produce (targetUrl : string) (now written : Z)
  (files : CacheStore.Files) (net : Net)
  : Outcome HttpResponse * CacheStore.Files * Net :=
  let cacheKey := cacheKeyForUrl targetUrl in
  match readCacheEntry files now cacheKey with
  | Throw message => (Throw message, files, net)
  | Return (Some cached) =>
      (sendImage (CacheStore.contentType cached) (CacheStore.body cached),
       files, net)
  | Return None =>
      let '(answer, net) := fetchScreenshotBuffer targetUrl net in
      match answer with
      | Throw message => (Throw message, files, net)
      | Return fresh =>
          let files :=
            writeCacheEntry files written cacheKey
              (ScreenshotFetcher.contentType fresh) (ScreenshotFetcher.body fresh) in
          (sendImage (CacheStore.JStr (ScreenshotFetcher.contentType fresh))
                     (ScreenshotFetcher.body fresh),
           files, net)
      end
  end.

(** [app.get("/api/screenshot", ...)]; [u] is [req.query.u] when it is a
    string. *)
Definition screenshotHandler (u : option string) (now written : Z)
  (files : CacheStore.Files) (net : Net)
  : HttpResponse * CacheStore.Files * Net :=
  let targetUrl := match u with Some s => trim s | None => "" end in
  if negb (isWebUrl targetUrl) then
    (BadRequest400 "Missing or invalid screenshot URL.", files, net)
  else
    let '(result, files, net) := produce targetUrl now written files net in
    (match result with
     | Return response => response
     | Throw details => BadGateway502 "Failed to create screenshot." details
     end, files, net).

End Endpoint.

(** ** Paths and keys *)

Lemma list_of_append a b :
  list_ascii_of_string (a +:+ b)
  = (list_ascii_of_string a ++ list_ascii_of_string b)%list.
Proof. induction a as [|x a IH]; simpl; [reflexivity|]. now rewrite IH. Qed.

Lemma append_inj_r a b c : a +:+ c = b +:+ c -> a = b.
Proof.
  intros H. apply (f_equal list_ascii_of_string) in H.
  rewrite !list_of_append in H. apply app_inv_tail in H.
  rewrite <- (string_of_list_ascii_of_string a),
          <- (string_of_list_ascii_of_string b). now rewrite H.
Qed.

Lemma suffixes_differ a b : a +:+ ".json" <> b +:+ ".bin".
Proof.
  intros H. apply (f_equal list_ascii_of_string) in H.
  rewrite !list_of_append in H. apply (f_equal (@rev ascii)) in H.
  rewrite !rev_app_distr in H. simpl in H. discriminate H.
Qed.

Lemma metaPath_inj dir k k' :
  CacheStore.metaPath dir k = CacheStore.metaPath dir k' -> k = k'.
Proof.
  unfold CacheStore.metaPath. intros H.
  do 2 apply CacheStore.append_inj_l in H. now apply append_inj_r in H.
Qed.

Lemma binPath_inj dir k k' :
  CacheStore.binPath dir k = CacheStore.binPath dir k' -> k = k'.
Proof.
  unfold CacheStore.binPath. intros H.
  do 2 apply CacheStore.append_inj_l in H. now apply append_inj_r in H.
Qed.

Lemma meta_not_bin dir k k' : CacheStore.metaPath dir k <> CacheStore.binPath dir k'.
Proof.
  unfold CacheStore.metaPath, CacheStore.binPath. intros H.
  do 2 apply CacheStore.append_inj_l in H. now apply suffixes_differ in H.
Qed.

Section StoreFrame.

Variable JSON_parse : string -> option CacheStore.JSValue.
Variable JSON_stringify : CacheStore.JSValue -> string.
Variable toStringJS : CacheStore.JSValue -> option string.
Variable toNumberJS : CacheStore.JSValue -> option CacheStore.JSNum.
Variable dir : string.
Variable hours : Z.

Local Abbreviation get := (CacheStore.readCacheEntry JSON_parse toStringJS toNumberJS dir hours).
Local Abbreviation put := (CacheStore.writeCacheEntry JSON_stringify dir).

(** [readCacheEntry] looks at the two files of its key and nothing else. *)
Lemma readCacheEntry_ext (files files' : CacheStore.Files) now key :
  files' !! CacheStore.metaPath dir key = files !! CacheStore.metaPath dir key ->
  files' !! CacheStore.binPath dir key = files !! CacheStore.binPath dir key ->
  get files' now key = get files now key.
Proof.
  intros Hm Hb.
  unfold CacheStore.readCacheEntry, CacheStore.readCacheEntryTry, CacheStore.readFile.
  now rewrite Hm, Hb.
Qed.

(** X2. Storing a screenshot under one key leaves every other key as it
    was: what [readCacheEntry] returns for [other] is the same before and
    after [writeCacheEntry] for [key]. *)
Theorem writeCacheEntry_other_keys (files : CacheStore.Files) (t now : Z)
  (key other ct bin : string) :
  other <> key ->
  CacheStore.readCacheEntry JSON_parse toStringJS toNumberJS dir hours
    (CacheStore.writeCacheEntry JSON_stringify dir files t key ct bin) now other
  = CacheStore.readCacheEntry JSON_parse toStringJS toNumberJS dir hours
      files now other.
Proof.
  intros Hne. apply readCacheEntry_ext; unfold CacheStore.writeCacheEntry.
  - rewrite lookup_insert_ne by (intros E; apply metaPath_inj in E; congruence).
    rewrite lookup_insert_ne by (intros E; symmetry in E; now apply meta_not_bin in E).
    reflexivity.
  - rewrite lookup_insert_ne by (intros E; now apply meta_not_bin in E).
    rewrite lookup_insert_ne by (intros E; apply binPath_inj in E; congruence).
    reflexivity.
Qed.

Hypothesis toStringJS_str : forall s, toStringJS (CacheStore.JStr s) = Some s.
Hypothesis toNumberJS_num : forall n, toNumberJS (CacheStore.JNum n) = Some n.

(** X1. What [writeCacheEntry] stores at time [t] for an image content
    type, [readCacheEntry] gives back with the same content type and body
    at every time [now] with [now - t <= screenshotTtlMs], and reports as
    absent afterwards; an entry written when the clock reads 0 is never
    given back. *)
Theorem write_then_read (files : CacheStore.Files) (t now : Z)
  (key ct bin : string) :
  JSON_parse (JSON_stringify (CacheStore.metaOf ct t)) = Some (CacheStore.metaOf ct t) ->
  startsWith "image/" (toLowerCase ct) = true ->
  (t <> 0 -> now - t <= CacheStore.screenshotTtlMs hours ->
     get (put files t key ct bin) now key
     = Return (Some (CacheStore.mkCacheEntry (CacheStore.JStr ct) bin)))
  /\ (t <> 0 -> now - t > CacheStore.screenshotTtlMs hours ->
       get (put files t key ct bin) now key = Return None)
  /\ (t = 0 -> get (put files t key ct bin) now key = Return None).
Proof.
  intros Hp Hi. split; [|split].
  - intros Ht Hage.
    rewrite (CacheStore.readCacheEntry_after_write _ _ _ _ _ _
               toStringJS_str toNumberJS_num _ _ _ _ _ _ Hp Hi Ht).
    assert (E : (now - t >? CacheStore.screenshotTtlMs hours) = false) by lia.
    now rewrite E.
  - intros Ht Hage.
    rewrite (CacheStore.readCacheEntry_after_write _ _ _ _ _ _
               toStringJS_str toNumberJS_num _ _ _ _ _ _ Hp Hi Ht).
    assert (E : (now - t >? CacheStore.screenshotTtlMs hours) = true) by lia.
    now rewrite E.
  - intros ->.
    erewrite CacheStore.readCacheEntry_parsed; [| | |exact Hp].
    + reflexivity.
    + unfold CacheStore.writeCacheEntry. apply lookup_insert_eq.
    + unfold CacheStore.writeCacheEntry.
      rewrite lookup_insert_ne by apply CacheStore.paths_differ.
      apply lookup_insert_eq.
Qed.

End StoreFrame.

(** ** The handler *)

Section EndpointFacts.

Variable JSON_parse : string -> option CacheStore.JSValue.
Variable JSON_stringify : CacheStore.JSValue -> string.
Variable toStringJS : CacheStore.JSValue -> option string.
Variable toNumberJS : CacheStore.JSValue -> option CacheStore.JSNum.
Variable dir : string.
Variable hours : Z.
Variable encodeURIComponent : string -> string.
Variable Net : Type.
Variable fetch : Net -> string -> Outcome ScreenshotFetcher.Response * Net.
Variable isWebUrl : string -> bool.
Variable sha256hex : string -> string.
Variable setHeader : CacheStore.JSValue -> Outcome unit.

Local Abbreviation get := (CacheStore.readCacheEntry JSON_parse toStringJS toNumberJS dir hours).
Local Abbreviation put := (CacheStore.writeCacheEntry JSON_stringify dir).
Local Abbreviation handler :=
  (screenshotHandler JSON_parse JSON_stringify toStringJS toNumberJS dir hours
     encodeURIComponent Net fetch isWebUrl sha256hex setHeader).
Local Abbreviation keyOf := (cacheKeyForUrl sha256hex).

(** The upstream URL the configured provider builds for a target. *)
Definition upstreamOf (targetUrl : string) : string :=
  "https://image.thum.io/get/width/1400/crop/900/noanimate/"
  +:+ encodeURIComponent targetUrl.

Lemma fetchScreenshotBuffer_rejected targetUrl net answer net1 r :
  fetch net (upstreamOf targetUrl) = (answer, net1) ->
  ScreenshotFetcher.rejection answer = Some r ->
  ScreenshotFetcher.fetchScreenshotBuffer encodeURIComponent Net fetch targetUrl net
  = (Throw r, net1).
Proof.
  intros Hf Hr.
  unfold ScreenshotFetcher.fetchScreenshotBuffer,
         ScreenshotFetcher.fetchScreenshotBufferWith. simpl.
  fold (upstreamOf targetUrl). rewrite Hf.
  unfold ScreenshotFetcher.rejection in Hr.
  destruct answer as [response|message]; [|now injection Hr as ->].
  destruct (ScreenshotFetcher.ok response); simpl in *; [|now injection Hr as <-].
  destruct (startsWith "image/" _); simpl in *; [|now injection Hr as <-].
  destruct (ScreenshotFetcher.arrayBuffer response) as [bytes|message];
    [|now injection Hr as ->].
  destruct (String.length bytes =? 0)%nat; [now injection Hr as <-|discriminate].
Qed.

Lemma fetchScreenshotBuffer_accepted targetUrl net response net1 bytes :
  fetch net (upstreamOf targetUrl) = (Return response, net1) ->
  ScreenshotFetcher.ok response = true ->
  startsWith "image/"
    (toLowerCase (ScreenshotFetcher.orElse
                    (ScreenshotFetcher.contentTypeHeader response) "image/jpeg")) = true ->
  ScreenshotFetcher.arrayBuffer response = Return bytes -> bytes <> "" ->
  ScreenshotFetcher.fetchScreenshotBuffer encodeURIComponent Net fetch targetUrl net
  = (Return (ScreenshotFetcher.mkImage
               (ScreenshotFetcher.orElse
                  (ScreenshotFetcher.contentTypeHeader response) "image/jpeg") bytes),
     net1).
Proof.
  intros Hf Hok Hi Hb Hne.
  unfold ScreenshotFetcher.fetchScreenshotBuffer,
         ScreenshotFetcher.fetchScreenshotBufferWith. simpl.
  fold (upstreamOf targetUrl). rewrite Hf, Hok. simpl. rewrite Hi. simpl.
  rewrite Hb. destruct bytes; [contradiction|reflexivity].
Qed.

(** X4. A request that cannot be served leaves the store as it was: a
    missing or invalid [u] is answered 400 without touching the network;
    when nothing fresh is cached (absent, corrupt or expired) and the
    provider's answer is rejected, the answer is a 502 whose details are
    the reason of that rejection, and no expired entry is served. *)
Theorem screenshot_failures_keep_store (u : option string) (now written : Z)
  (files : CacheStore.Files) (net : Net) :
  let targetUrl := match u with Some s => trim s | None => "" end in
  (isWebUrl targetUrl = false ->
   handler u now written files net
   = (BadRequest400 "Missing or invalid screenshot URL.", files, net))
  /\ (forall answer net1 r,
       isWebUrl targetUrl = true ->
       get files now (keyOf targetUrl) = Return None ->
       fetch net (upstreamOf targetUrl) = (answer, net1) ->
       ScreenshotFetcher.rejection answer = Some r ->
       handler u now written files net
       = (BadGateway502 "Failed to create screenshot." r, files, net1)).
Proof.
  intros targetUrl. split.
  - intros Hw. unfold screenshotHandler. fold targetUrl. now rewrite Hw.
  - intros answer net1 r Hw Hmiss Hf Hr.
    unfold screenshotHandler, produce. fold targetUrl. rewrite Hw. simpl.
    rewrite Hmiss.
    now rewrite (fetchScreenshotBuffer_rejected _ _ _ _ _ Hf Hr).
Qed.

Hypothesis toStringJS_str : forall s, toStringJS (CacheStore.JStr s) = Some s.
Hypothesis toNumberJS_num : forall n, toNumberJS (CacheStore.JNum n) = Some n.

(** X3. Get-or-produce: when nothing fresh is cached and the provider
    answers with an image, the handler answers 200 with that image and
    stores it; the next request for the same [u], at any time within the
    TTL of the write, is answered with the same content type and body from
    the store, without a call to the provider and without a write. *)
Theorem screenshot_miss_then_hit (u : string) (now written now2 written2 : Z)
  (files : CacheStore.Files) (net net1 : Net)
  (response : ScreenshotFetcher.Response) (bytes : string) :
  let targetUrl := trim u in
  let ct := ScreenshotFetcher.orElse
              (ScreenshotFetcher.contentTypeHeader response) "image/jpeg" in
  let files1 := put files written (keyOf targetUrl) ct bytes in
  isWebUrl targetUrl = true ->
  get files now (keyOf targetUrl) = Return None ->
  fetch net (upstreamOf targetUrl) = (Return response, net1) ->
  ScreenshotFetcher.ok response = true ->
  startsWith "image/" (toLowerCase ct) = true ->
  ScreenshotFetcher.arrayBuffer response = Return bytes -> bytes <> "" ->
  setHeader (CacheStore.JStr ct) = Return tt ->
  JSON_parse (JSON_stringify (CacheStore.metaOf ct written))
  = Some (CacheStore.metaOf ct written) ->
  written <> 0 -> now2 - written <= CacheStore.screenshotTtlMs hours ->
  handler (Some u) now written files net
  = (Image200 (CacheStore.JStr ct) bytes, files1, net1)
  /\ handler (Some u) now2 written2 files1 net1
     = (Image200 (CacheStore.JStr ct) bytes, files1, net1).
Proof.
  intros targetUrl ct files1 Hw Hmiss Hf Hok Hi Hb Hne Hh Hp Ht Hage.
  split.
  - unfold screenshotHandler, produce. fold targetUrl. rewrite Hw. simpl.
    rewrite Hmiss.
    rewrite (fetchScreenshotBuffer_accepted _ _ _ _ _ Hf Hok Hi Hb Hne).
    simpl. unfold sendImage. fold ct. rewrite Hh. reflexivity.
  - unfold screenshotHandler, produce. fold targetUrl. rewrite Hw. simpl.
    unfold files1.
    rewrite (CacheStore.readCacheEntry_after_write _ _ _ _ _ _
               toStringJS_str toNumberJS_num _ _ _ _ _ _ Hp Hi Ht).
    assert (E : (now2 - written >? CacheStore.screenshotTtlMs hours) = false) by lia.
    rewrite E. simpl. unfold sendImage. rewrite Hh. reflexivity.
Qed.

End EndpointFacts.

(** A setting to evaluate the endpoint in: identity for the key hash,
    one stored metadata text, a provider that serves a PNG. *)
Definition demoWebUrl (value : string) : bool := startsWith "http" value.
Definition demoStringify (_ : CacheStore.JSValue) : string := "META".
Definition demoParse (raw : string) : option CacheStore.JSValue :=
  if String.eqb raw "META" then Some (CacheStore.metaOf "image/png" 5000) else None.
Definition demoHeader (_ : CacheStore.JSValue) : Outcome unit := Return tt.
Definition pngResponse : ScreenshotFetcher.Response :=
  ScreenshotFetcher.mkResponse true 200 (Some "image/png") (Return "PNG").
Definition serving (n : nat) (_ : string) : Outcome ScreenshotFetcher.Response * nat :=
  (Return pngResponse, S n).

Lemma write_then_read_witness :
  CacheStore.readCacheEntry demoParse CacheStore.demoString CacheStore.demoNumber
    "cache" 168
    (CacheStore.writeCacheEntry demoStringify "cache" ∅ 5000 "k" "image/png" "PNG")
    6000 "k"
  = Return (Some (CacheStore.mkCacheEntry (CacheStore.JStr "image/png") "PNG")).
Proof.
  exact (proj1 (write_then_read demoParse demoStringify CacheStore.demoString
                  CacheStore.demoNumber "cache" 168 (fun _ => eq_refl)
                  (fun _ => eq_refl) ∅ 5000 6000 "k" "image/png" "PNG"
                  eq_refl eq_refl)
           ltac:(discriminate) ltac:(vm_compute; discriminate)).
Defined.

Lemma writeCacheEntry_other_keys_witness :
  CacheStore.readCacheEntry demoParse CacheStore.demoString CacheStore.demoNumber
    "cache" 168
    (CacheStore.writeCacheEntry demoStringify "cache" ∅ 5000 "k" "image/png" "PNG")
    6000 "other"
  = CacheStore.readCacheEntry demoParse CacheStore.demoString CacheStore.demoNumber
      "cache" 168 ∅ 6000 "other".
Proof.
  exact (writeCacheEntry_other_keys demoParse demoStringify CacheStore.demoString
           CacheStore.demoNumber "cache" 168 ∅ 5000 6000 "k" "other" "image/png"
           "PNG" ltac:(discriminate)).
Defined.

Lemma screenshot_failures_keep_store_witness :
  screenshotHandler demoParse demoStringify CacheStore.demoString
    CacheStore.demoNumber "cache" 168 (fun x => x) nat
    (ScreenshotFetcher.failing 503) demoWebUrl (fun x => x) demoHeader
    (Some " https://shop.example/ ") 6000 6001 ∅ 0%nat
  = (BadGateway502 "Failed to create screenshot." "Provider failed (503).",
     ∅, 1%nat).
Proof.
  exact (proj2 (screenshot_failures_keep_store demoParse demoStringify
                  CacheStore.demoString CacheStore.demoNumber "cache" 168
                  (fun x => x) nat (ScreenshotFetcher.failing 503) demoWebUrl
                  (fun x => x) demoHeader (Some " https://shop.example/ ")
                  6000 6001 ∅ 0%nat)
           _ 1%nat "Provider failed (503)." eq_refl eq_refl eq_refl eq_refl).
Defined.

Lemma screenshot_miss_then_hit_witness :
  let files1 :=
    CacheStore.writeCacheEntry demoStringify "cache" ∅ 5000
      "v3:https://shop.example/" "image/png" "PNG" in
  screenshotHandler demoParse demoStringify CacheStore.demoString
    CacheStore.demoNumber "cache" 168 (fun x => x) nat serving demoWebUrl
    (fun x => x) demoHeader (Some "https://shop.example/") 4999 5000 ∅ 0%nat
  = (Image200 (CacheStore.JStr "image/png") "PNG", files1, 1%nat)
  /\ screenshotHandler demoParse demoStringify CacheStore.demoString
       CacheStore.demoNumber "cache" 168 (fun x => x) nat serving demoWebUrl
       (fun x => x) demoHeader (Some "https://shop.example/") 9000 9001 files1 1%nat
     = (Image200 (CacheStore.JStr "image/png") "PNG", files1, 1%nat).
Proof.
  exact (screenshot_miss_then_hit demoParse demoStringify CacheStore.demoString
           CacheStore.demoNumber "cache" 168 (fun x => x) nat serving demoWebUrl
           (fun x => x) demoHeader (fun _ => eq_refl) (fun _ => eq_refl)
           "https://shop.example/" 4999 5000 9000 9001 ∅ 0%nat 1%nat
           pngResponse "PNG" eq_refl eq_refl eq_refl eq_refl eq_refl eq_refl
           ltac:(discriminate) eq_refl eq_refl ltac:(discriminate)
           ltac:(vm_compute; discriminate)).
Defined.

End ScreenshotEndpoint.

(* ===================================================================== *)
(** * DatasetCache over whole runs (server) *)
(* ===================================================================== *)

Module DatasetServing.

Import JS DatasetCache.

(** The requests among the events, in order of arrival. *)
Definition requestsIn (events : list Event) : list nat :=
  flat_map (fun e => match e with Request req _ => [req] | Settled _ _ _ => [] end)
           events.

(** The requests the server has answered, then those it holds suspended. *)
Definition accounted (sv : Server) : list nat :=
  (List.map fst (responses sv) ++ List.map request (waiting sv))%list.

Lemma filter_split {A} (f : A -> bool) l :
  Permutation (List.filter f l ++ List.filter (fun x => negb (f x)) l) l.
Proof.
  induction l as [|x l IH]; simpl; [constructor|].
  destruct (f x); simpl.
  - now constructor.
  - rewrite <- Permutation_middle. now constructor.
Qed.

Section Runs.

Variable seconds : Z.

Lemma accounted_step sv e :
  Permutation (accounted (step seconds sv e)) (accounted sv ++ requestsIn [e]).
Proof.
  unfold accounted. destruct e as [req now|p outcome now]; simpl requestsIn.
  - destruct (isFreshCache seconds (shopsCache sv) now) eqn:Hf.
    + assert (exists p, payload (shopsCache sv) = Some p) as [p Hp].
      { unfold isFreshCache in Hf. destruct (payload (shopsCache sv)); eauto.
        discriminate. }
      rewrite (step_fresh _ _ _ _ _ Hf Hp). simpl.
      rewrite map_app. simpl. rewrite <- !app_assoc.
      apply Permutation_app_head. apply Permutation_app_comm.
    + destruct (inflight (shopsCache sv)) as [p|] eqn:Hi.
      * rewrite (step_join _ _ _ _ _ Hf Hi). simpl.
        rewrite map_app. simpl. now rewrite <- !app_assoc.
      * rewrite (step_start _ _ _ _ Hf Hi). simpl.
        rewrite map_app. simpl. now rewrite <- !app_assoc.
  - rewrite app_nil_r. unfold step.
    destruct (inflight (shopsCache sv)) as [q|]; [|reflexivity].
    destruct (Nat.eqb q p); [|reflexivity]. simpl.
    rewrite map_app, map_map. simpl. rewrite <- app_assoc.
    apply Permutation_app_head.
    rewrite <- !List.map_app. apply Permutation_map.
    apply (filter_split (awaits p)).
Qed.

Lemma accounted_run events sv :
  Permutation (accounted (run seconds sv events)) (accounted sv ++ requestsIn events).
Proof.
  revert sv. induction events as [|e l IH]; intros sv.
  - simpl. now rewrite app_nil_r.
  - change (run seconds sv (e :: l)) with (run seconds (step seconds sv e) l).
    rewrite IH, accounted_step.
    assert (E : requestsIn (e :: l) = (requestsIn [e] ++ requestsIn l)%list)
      by (simpl; now rewrite app_nil_r).
    now rewrite E, <- app_assoc.
Qed.

End Runs.

(** X5. Whatever requests and settlements reach the server after boot, in
    whatever order: at most one [buildShopsPayload] call is pending; every
    request received is either answered exactly once or suspended on the
    pending call, none is lost and none answered twice; and when no call is
    pending every request has its answer. *)
Theorem every_request_accounted (seconds : Z) (events : list Event) :
  let sv := run seconds boot events in
  (started sv = finished sv \/ started sv = S (finished sv))
  /\ Permutation (accounted sv) (requestsIn events)
  /\ (inflight (shopsCache sv) = None ->
      waiting sv = [] /\ finished sv = started sv /\
      Permutation (List.map fst (responses sv)) (requestsIn events)).
Proof.
  intros sv.
  pose proof (run_wf seconds events boot wf_boot) as Hwf. fold sv in Hwf.
  pose proof (accounted_run seconds events boot) as Hacc. fold sv in Hacc.
  simpl in Hacc.
  split; [|split; [exact Hacc|]].
  - unfold wf in Hwf. destruct (inflight (shopsCache sv)).
    + right. destruct Hwf as (-> & -> & _). reflexivity.
    + left. now destruct Hwf.
  - intros Hi. unfold wf in Hwf. rewrite Hi in Hwf. destruct Hwf as [Hf Hw].
    repeat split; try assumption.
    unfold accounted in Hacc. rewrite Hw in Hacc. simpl in Hacc.
    now rewrite app_nil_r in Hacc.
Qed.

(** X6. After a refresh that succeeds at a time [t] other than 0, every
    request that arrives less than [shopsCacheTtlMs] later is answered at
    once with the refreshed payload, tagged memory-fresh, and starts no
    [buildShopsPayload] call; a request that arrives [shopsCacheTtlMs]
    later or more starts a new one. *)
Theorem refresh_then_memory_fresh (seconds : Z) (sv : Server) (first : nat * Z)
  (rest : list (nat * Z)) (p : Payload) (t : Z) :
  wf sv -> inflight (shopsCache sv) = None ->
  Forall (fun rn => isFreshCache seconds (shopsCache sv) (snd rn) = false)
         (first :: rest) ->
  t <> 0 ->
  let sv1 := run seconds sv
               (List.map requestOf (first :: rest)
                ++ [Settled (started sv) (Return p) t]) in
  shopsCache sv1 = mkCache (Some p) t None
  /\ (forall req now, now - t < shopsCacheTtlMs seconds ->
        step seconds sv1 (Request req now)
        = mkServer (shopsCache sv1) (started sv1) (finished sv1) (waiting sv1)
                   (responses sv1 ++ [(req, Ok200 p "memory-fresh")]))
  /\ (forall req now, shopsCacheTtlMs seconds <= now - t ->
        let sv2 := step seconds sv1 (Request req now) in
        started sv2 = S (started sv1) /\
        waiting sv2 = [mkWaiter req (started sv1) "notion-refresh"] /\
        responses sv2 = responses sv1).
Proof.
  intros Hwf Hi Hf Ht sv1.
  assert (E : sv1 = mkServer (mkCache (Some p) t None)
            (S (started sv)) (S (started sv)) []
            (responses sv ++
             List.map (fun w => (request w, Ok200 p (source w)))
                      (callersOf (started sv) first rest))).
  { unfold sv1, run. rewrite fold_left_app.
    change (fold_left (step seconds) (List.map requestOf (first :: rest)) sv)
      with (run seconds sv (List.map requestOf (first :: rest))).
    rewrite run_calls by assumption. cbn [fold_left].
    rewrite step_settled.
    - reflexivity.
    - reflexivity.
    - simpl. constructor; [reflexivity|]. apply Forall_map. now apply Forall_true. }
  rewrite E. split; [reflexivity|]. split.
  - intros req now Hnow. apply step_fresh; [|reflexivity].
    unfold isFreshCache. simpl. apply Z.eqb_neq in Ht. rewrite Ht. lia.
  - intros req now Hnow sv2. unfold sv2. rewrite step_start; [|simpl|reflexivity].
    + repeat split.
    + unfold isFreshCache. simpl. apply Z.eqb_neq in Ht. rewrite Ht. lia.
Qed.

Lemma every_request_accounted_witness :
  let sv := run 300 boot
              [Request 1 10; Request 2 11; Settled 0 (Return demoPayload) 20;
               Request 3 30] in
  Permutation (List.map fst (responses sv)) [1%nat; 2%nat; 3%nat].
Proof.
  exact (proj2 (proj2 (proj2 (proj2 (every_request_accounted 300
           [Request 1 10; Request 2 11; Settled 0 (Return demoPayload) 20;
            Request 3 30])) eq_refl))).
Defined.

Lemma refresh_then_memory_fresh_witness :
  let sv1 := run 300 boot [Request 1 10; Settled 0 (Return demoPayload) 20] in
  step 300 sv1 (Request 2 300019)
  = mkServer (shopsCache sv1) (started sv1) (finished sv1) (waiting sv1)
             (responses sv1 ++ [(2%nat, Ok200 demoPayload "memory-fresh")]).
Proof.
  exact (proj1 (proj2 (refresh_then_memory_fresh 300 boot (1%nat, 10) []
                         demoPayload 20 wf_boot eq_refl
                         ltac:(repeat constructor) ltac:(discriminate)))
           2%nat 300019 ltac:(vm_compute; reflexivity)).
Defined.

End DatasetServing.

(* ===================================================================== *)
(** * Filter options: what the server offers and what the client finds *)
(* ===================================================================== *)

Module Facets.

Import JS DatasetCache.

(** ** [trim] and [toLowerCase] *)

Lemma isWhiteSpace_lowerChar c : isWhiteSpace (lowerChar c) = isWhiteSpace c.
Proof. destruct c as [[] [] [] [] [] [] [] []]; reflexivity. Qed.

Lemma list_of_toLowerCase s :
  list_ascii_of_string (toLowerCase s) = List.map lowerChar (list_ascii_of_string s).
Proof. induction s as [|c s IH]; simpl; [reflexivity|]. now rewrite IH. Qed.

Lemma toLowerCase_of_list l :
  toLowerCase (string_of_list_ascii l) = string_of_list_ascii (List.map lowerChar l).
Proof. induction l as [|c l IH]; simpl; [reflexivity|]. now rewrite IH. Qed.

Lemma trimStartL_map l :
  trimStartL (List.map lowerChar l) = List.map lowerChar (trimStartL l).
Proof.
  induction l as [|c l IH]; simpl; [reflexivity|].
  rewrite isWhiteSpace_lowerChar. now destruct (isWhiteSpace c).
Qed.

Lemma trimEndL_map l :
  trimEndL (List.map lowerChar l) = List.map lowerChar (trimEndL l).
Proof. unfold trimEndL. now rewrite <- map_rev, trimStartL_map, map_rev. Qed.

(** Lower-casing and trimming commute. *)
Lemma trim_toLowerCase s : trim (toLowerCase s) = toLowerCase (trim s).
Proof.
  unfold trim. rewrite list_of_toLowerCase, trimStartL_map, trimEndL_map.
  now rewrite toLowerCase_of_list.
Qed.

Lemma trimStartL_idem l : trimStartL (trimStartL l) = trimStartL l.
Proof.
  induction l as [|c l IH]; simpl; [reflexivity|].
  destruct (isWhiteSpace c) eqn:E; [exact IH|]. simpl. now rewrite E.
Qed.

Lemma trimStartL_snoc l c :
  isWhiteSpace c = false -> exists m, trimStartL (l ++ [c]) = (m ++ [c])%list.
Proof.
  intros Hc. induction l as [|x l [m IH]]; simpl.
  - rewrite Hc. now exists [].
  - destruct (isWhiteSpace x); [now exists m|]. now exists (x :: l).
Qed.

Lemma trimStartL_trimEndL l :
  trimStartL (trimEndL (trimStartL l)) = trimEndL (trimStartL l).
Proof.
  pose proof (trimStartL_head l) as H. unfold trimEndL.
  destruct (trimStartL l) as [|c r]; [reflexivity|].
  simpl rev. destruct (trimStartL_snoc (rev r) c H) as [m ->].
  rewrite rev_app_distr. simpl. now rewrite H.
Qed.

Lemma trimEndL_idem l : trimEndL (trimEndL l) = trimEndL l.
Proof. unfold trimEndL. now rewrite rev_involutive, trimStartL_idem. Qed.

(** Trimming twice is trimming once. *)
Lemma trim_idem s : trim (trim s) = trim s.
Proof.
  unfold trim. rewrite list_ascii_of_string_of_list_ascii.
  now rewrite trimStartL_trimEndL, trimEndL_idem.
Qed.

Lemma normalizeText_trim s :
  Gallery.normalizeText (trim s) = Gallery.normalizeText s.
Proof.
  unfold Gallery.normalizeText. now rewrite <- trim_toLowerCase, trim_idem.
Qed.

(** ** Membership in the facets *)

Lemma uniqFrom_complete x seen l :
  In x l -> ~ In x seen -> In x (uniqFrom seen l).
Proof.
  revert seen. induction l as [|a r IH]; intros seen Hx Hs; [destruct Hx|].
  simpl. destruct (existsb (String.eqb a) seen) eqn:E.
  - destruct Hx as [->|Hx]; [|now apply IH].
    apply existsb_eqb_In in E. contradiction.
  - destruct (String.eqb_spec a x) as [->|Hne]; [now left|].
    right. destruct Hx as [Hx|Hx]; [contradiction|].
    apply IH; [exact Hx|]. intros [Ha|Hin]; [contradiction|now apply Hs].
Qed.

Lemma uniq_iff x l : In x (uniq l) <-> In x l.
Proof.
  split; [apply uniq_In|]. intros H. now apply uniqFrom_complete.
Qed.

Lemma truthyStr_iff s : truthyStr s = true <-> s <> "".
Proof.
  unfold truthyStr. destruct (String.eqb_spec s ""); split; intros H;
    try discriminate; try contradiction; try reflexivity; assumption.
Qed.

Lemma facet_In lc candidates x :
  In x (sort lc (uniq (List.filter truthyStr candidates)))
  <-> x <> "" /\ In x candidates.
Proof.
  split.
  - intros H. apply (Permutation_in _ (sort_perm lc _)) in H.
    apply uniq_iff, filter_In in H. destruct H as [H1 H2].
    split; [now apply truthyStr_iff|exact H1].
  - intros [H1 H2]. apply (Permutation_in _ (Permutation_sym (sort_perm lc _))).
    apply uniq_iff, filter_In. split; [exact H2|now apply truthyStr_iff].
Qed.

Section Membership.

Variable localeCompare : string -> string -> Z.
Variable encodeURIComponent : string -> string.
Variable db : string.
Variable data : Notion.Data.

Local Abbreviation built := (buildShopsPayloadFrom localeCompare encodeURIComponent db data).

Lemma tags_In x :
  In x (tags built) <->
  x <> "" /\ exists shop tag, In shop (Notion.items data) /\
                              In tag (Model.tags shop) /\ x = trim tag.
Proof.
  unfold buildShopsPayloadFrom. simpl.
  rewrite facet_In. apply and_iff_compat_l. rewrite in_map_iff. split.
  - intros (tag & <- & Hin). apply in_flat_map in Hin.
    destruct Hin as (shop' & Hs & Ht). apply in_map_iff in Hs.
    destruct Hs as (shop & <- & Hs). now exists shop, tag.
  - intros (shop & tag & Hs & Ht & ->). exists tag. split; [reflexivity|].
    apply in_flat_map.
    exists (mkShop shop (screenshotOf encodeURIComponent shop)).
    split; [|exact Ht]. apply in_map_iff. now exists shop.
Qed.

Lemma categories_In x :
  In x (categories built) <->
  x <> "" /\ exists shop, In shop (Notion.items data) /\ x = trim (category shop).
Proof.
  unfold buildShopsPayloadFrom. simpl.
  rewrite facet_In. apply and_iff_compat_l. rewrite in_map_iff. split.
  - intros (shop' & <- & Hs). apply in_map_iff in Hs.
    destruct Hs as (shop & <- & Hs). now exists shop.
  - intros (shop & Hs & ->).
    exists (mkShop shop (screenshotOf encodeURIComponent shop)).
    split; [reflexivity|]. apply in_map_iff. now exists shop.
Qed.

Lemma shops_items : List.map item (shops built) = Notion.items data.
Proof. unfold buildShopsPayloadFrom. simpl. rewrite map_map. apply map_id. Qed.

End Membership.

(** X7. The payload offers as [tags] exactly the non-empty trimmed tags
    of its shops and as [categories] exactly their non-empty trimmed
    categories, and its [shops] are the collaborator's records, in their
    order, each with nothing but the screenshot link added. *)
Theorem facets_complete (localeCompare : string -> string -> Z)
  (encodeURIComponent : string -> string) (db : string) (data : Notion.Data)
  (x : string) :
  let p := buildShopsPayloadFrom localeCompare encodeURIComponent db data in
  (In x (tags p) <->
     x <> "" /\ exists shop tag, In shop (Notion.items data) /\
                                 In tag (Model.tags shop) /\ x = trim tag)
  /\ (In x (categories p) <->
      x <> "" /\ exists shop, In shop (Notion.items data) /\ x = trim (category shop))
  /\ List.map item (shops p) = Notion.items data.
Proof.
  intros p. split; [apply tags_In|]. split; [apply categories_In|apply shops_items].
Qed.

(** X8. No offered option is dead. With the payload's shops loaded, the
    text filter blank and the other select on "all", choosing any tag the
    payload offers, or any category it offers, leaves at least one shop
    in the filtered list. *)
Theorem offered_options_match (localeCompare : string -> string -> Z)
  (encodeURIComponent : string -> string) (db : string) (data : Notion.Data)
  (st : Gallery.State) (x : string) :
  let p := buildShopsPayloadFrom localeCompare encodeURIComponent db data in
  Gallery.allShops st = shops p ->
  Gallery.normalizeText (Gallery.activeSummary st) = "" ->
  (In x (tags p) -> Gallery.activeTag st = x -> Gallery.activeCategory st = "all" ->
   Gallery.filteredShops (Gallery.computeFilteredShops localeCompare st) <> [])
  /\ (In x (categories p) -> Gallery.activeCategory st = x ->
      Gallery.activeTag st = "all" ->
      Gallery.filteredShops (Gallery.computeFilteredShops localeCompare st) <> []).
Proof.
  intros p Hall Hsum.
  assert (Hsort : forall l : list Shop, l <> [] ->
            Gallery.sortShops localeCompare (Gallery.activeSort st) l <> []).
  { intros l Hl E. apply Hl.
    rewrite Gallery.sortShops_comparatorOf in E.
    apply (f_equal (@length Shop)) in E. rewrite sort_length in E.
    now destruct l. }
  assert (Hin : forall shop, In shop (Notion.items data) ->
            In (mkShop shop (screenshotOf encodeURIComponent shop)) (Gallery.allShops st)).
  { intros shop Hs. rewrite Hall. unfold p, buildShopsPayloadFrom. simpl.
    apply in_map_iff. now exists shop. }
  assert (Hne : forall (l : list Shop) a, In a l -> l <> [])
    by (intros l a Ha ->; destruct Ha).
  split.
  - intros Hx Htag Hcat. apply tags_In in Hx.
    destruct Hx as (_ & shop & tag & Hs & Ht & ->).
    simpl. apply Hsort. unfold Gallery.filterItems.
    rewrite Hsum, Hcat, Htag. simpl.
    destruct (String.eqb (trim tag) "all"); simpl; [eapply Hne, Hin, Hs|].
    eapply Hne. apply filter_In. split; [apply Hin, Hs|]. simpl.
    apply existsb_exists. exists (Gallery.normalizeText tag).
    split; [apply in_map, Ht|]. rewrite normalizeText_trim. apply String.eqb_refl.
  - intros Hx Hcat Htag. apply categories_In in Hx.
    destruct Hx as (_ & shop & Hs & ->).
    simpl. apply Hsort. unfold Gallery.filterItems.
    rewrite Hsum, Hcat, Htag. simpl.
    destruct (String.eqb (trim (category shop)) "all"); simpl;
      [eapply Hne, Hin, Hs|].
    eapply Hne. apply filter_In. split; [apply Hin, Hs|]. simpl.
    rewrite normalizeText_trim. apply String.eqb_refl.
Qed.

(** The payload of the example loaded in the client, with the tag
    " type" of its first shop chosen as offered: "type". *)
Definition demoChoice : Gallery.State :=
  Gallery.mkState (shops demoPayload) [] "all" "type" "" "recent" 1 false [] false [].

Lemma offered_options_match_witness :
  Gallery.filteredShops (Gallery.computeFilteredShops ordinalCompare demoChoice) <> [].
Proof.
  exact (proj1 (offered_options_match ordinalCompare (fun u => u) "db" demoData
                  demoChoice "type" eq_refl eq_refl)
           ltac:(vm_compute; auto) eq_refl eq_refl).
Defined.

End Facets.

(* ===================================================================== *)
(** * The gallery over whole sessions (client) *)
(* ===================================================================== *)

Module GalleryRuns.

Import JS Gallery.

Lemma Frame_eq_dec (a b : Frame) : {a = b} + {a <> b}.
Proof. decide equality. Defined.

Definition activeFiltersCount (s : State) : nat :=
  let count := 0%nat in
  let count := if negb (String.eqb (activeCategory s) "all") then S count else count in
  let count := if negb (String.eqb (activeTag s) "all") then S count else count in
  let count := if truthyStr (trim (activeSummary s)) then S count else count in
  count.

Definition setAllShops (shops : list Shop) (s : State) : State :=
  mkState shops (filteredShops s) (activeCategory s) (activeTag s)
          (activeSummary s) (activeSort s) (currentPage s) (isAutoLoading s)
          (galleryCards s) (loadMoreHidden s) (frames s).

(** What moves the session: a browser event, or one of the two steps of
    [load]: [allShops = data.shops] once the response is in, and
    [refreshAndRender(true)] once the warm-up has settled. *)
Inductive Step :=
| Browser (e : Event)
| ShopsReceived (shops : list Shop)
| WarmupSettled.

Section Session.

Variable localeCompare : string -> string -> Z.

Definition advance (s : State) (x : Step) : State :=
  match x with
  | Browser e => handle localeCompare e s
  | ShopsReceived shops => setAllShops shops s
  | WarmupSettled => refreshAndRender localeCompare true s
  end.

Definition session (steps : list Step) : State :=
  fold_left advance steps initial.


End Session.

(** ** Filtering *)




Lemma computeFilteredShops_perm lc s :
  Permutation (filteredShops (computeFilteredShops lc s)) (filterItems s).
Proof. simpl. rewrite sortShops_comparatorOf. apply sort_perm. Qed.


Lemma blank_summary s :
  truthyStr (trim s) = false -> truthyStr (normalizeText s) = false.
Proof.
  unfold normalizeText. rewrite Facets.trim_toLowerCase.
  unfold truthyStr. destruct (String.eqb_spec (trim s) "") as [->|]; [|discriminate].
  reflexivity.
Qed.

(** X10. The badge and the filters agree: when [activeFiltersCount] is 0
    no shop is filtered out, so the filtered list is the loaded list up to
    order; the count never exceeds 3; and [resetFilters] leaves the count
    at 0, the page at 1 and every loaded shop in the filtered list. *)
Theorem no_counted_filter_hides_nothing (localeCompare : string -> string -> Z)
  (s : State) :
  (activeFiltersCount s = 0%nat ->
   Permutation (filteredShops (computeFilteredShops localeCompare s)) (allShops s))
  /\ (activeFiltersCount s <= 3)%nat
  /\ activeFiltersCount (resetFilters localeCompare s) = 0%nat
  /\ currentPage (resetFilters localeCompare s) = 1%nat
  /\ Permutation (filteredShops (resetFilters localeCompare s)) (allShops s).
Proof.
  assert (H0 : forall t, activeFiltersCount t = 0%nat ->
             Permutation (filteredShops (computeFilteredShops localeCompare t))
                         (allShops t)).
  { intros t Hc. rewrite computeFilteredShops_perm. unfold filterItems.
    unfold activeFiltersCount in Hc.
    destruct (String.eqb (activeCategory t) "all"); simpl in Hc;
      destruct (String.eqb (activeTag t) "all"); simpl in Hc;
      destruct (truthyStr (trim (activeSummary t))) eqn:E; try discriminate.
    rewrite (blank_summary _ E). reflexivity. }
  split; [apply H0|]. split.
  { unfold activeFiltersCount.
    destruct (negb _); destruct (negb _); destruct (truthyStr _); lia. }
  split; [reflexivity|]. split; [reflexivity|].
  exact (H0 (setPage 1 (setFilters "all" "all" "" s)) eq_refl).
Qed.

Lemma no_counted_filter_hides_nothing_witness :
  Permutation
    (filteredShops
       (computeFilteredShops ordinalCompare
          (mkState [zed; acme; mono] [] "all" "all" "   " "az" 2 false [] false [])))
    [zed; acme; mono].
Proof.
  exact (proj1 (no_counted_filter_hides_nothing ordinalCompare
                  (mkState [zed; acme; mono] [] "all" "all" "   " "az" 2 false []
                           false []))
           eq_refl).
Defined.

(** ** The order is determined *)

(** X19. For a consistent [localeCompare], what [sortShops] returns is
    the only arrangement of the shops that is in the order of the active
    sort and keeps tied shops in their given order; in particular sorting
    a list that [sortShops] has sorted returns it unchanged. *)
Theorem sortShops_unique (localeCompare : string -> string -> Z)
  (Hlc : consistent localeCompare) (o : string) (shops arranged : list Shop) :
  (Permutation arranged shops ->
   StronglySorted (before (comparatorOf localeCompare o)) arranged ->
   (forall k, List.filter (tied (comparatorOf localeCompare o) k) arranged
              = List.filter (tied (comparatorOf localeCompare o) k) shops) ->
   arranged = sortShops localeCompare o shops)
  /\ sortShops localeCompare o (sortShops localeCompare o shops)
     = sortShops localeCompare o shops.
Proof.
  pose proof (comparatorOf_consistent localeCompare o Hlc) as Hc.
  assert (U : forall l l', Permutation l' l ->
            StronglySorted (before (comparatorOf localeCompare o)) l' ->
            (forall k, List.filter (tied (comparatorOf localeCompare o) k) l'
                       = List.filter (tied (comparatorOf localeCompare o) k) l) ->
            l' = sortShops localeCompare o l).
  { intros l l' P S F. rewrite sortShops_comparatorOf.
    apply (stable_sorted_unique (comparatorOf localeCompare o)); try assumption.
    - now apply sort_sorted.
    - rewrite P. symmetry. apply sort_perm.
    - intros k. rewrite F. symmetry. now apply sort_stable. }
  split; [apply U|].
  symmetry. apply U; [reflexivity| |reflexivity].
  rewrite sortShops_comparatorOf. now apply sort_sorted.
Qed.

Lemma sortShops_unique_witness :
  sortShops ordinalCompare "az" (sortShops ordinalCompare "az" [zed; acme; mono])
  = sortShops ordinalCompare "az" [zed; acme; mono].
Proof.
  exact (proj2 (sortShops_unique ordinalCompare ordinalCompare_consistent "az"
                  [zed; acme; mono] [])).
Defined.

(** ** Paging over several loads *)

Lemma loadMore_visible s :
  visibleCount (loadMore s)
  = Nat.min (length (filteredShops s)) ((currentPage s + 1) * PAGE_SIZE).
Proof.
  unfold loadMore, hasMoreShops.
  destruct (Nat.ltb_spec (visibleCount s) (length (filteredShops s))) as [H|H];
    unfold visibleCount in *; simpl; unfold PAGE_SIZE in *; lia.
Qed.

Lemma loadMore_iter_filtered k s :
  filteredShops (Nat.iter k loadMore s) = filteredShops s.
Proof.
  induction k as [|k IH]; simpl; [reflexivity|]. now rewrite loadMore_filtered.
Qed.

Lemma loadMore_iter_visible k s :
  visibleCount (Nat.iter k loadMore s)
  = Nat.min (length (filteredShops s)) ((currentPage s + k) * PAGE_SIZE).
Proof.
  revert s. induction k as [|k IH]; intros s.
  - simpl. unfold visibleCount. now rewrite Nat.add_0_r.
  - rewrite Nat.iter_succ_r, IH, loadMore_filtered, loadMore_page.
    unfold hasMoreShops.
    destruct (Nat.ltb_spec (visibleCount s) (length (filteredShops s))) as [H|H];
      unfold visibleCount, PAGE_SIZE in *; lia.
Qed.

(** X11. [k] calls of [loadMore] from page [p] show
    [min (length filteredShops) ((p + k) * 12)] shops and leave the
    filtered list alone; so once [(p + k) * 12] reaches the length of the
    filtered list every shop is shown, nothing more is left to load, and
    further calls change nothing. *)
Theorem loadMore_reveals (k : nat) (s : State) :
  visibleCount (Nat.iter k loadMore s)
  = Nat.min (length (filteredShops s)) ((currentPage s + k) * 12)
  /\ filteredShops (Nat.iter k loadMore s) = filteredShops s
  /\ ((length (filteredShops s) <= (currentPage s + k) * 12)%nat ->
      visibleShops (Nat.iter k loadMore s) = filteredShops s /\
      hasMoreShops (Nat.iter k loadMore s) = false /\
      loadMore (Nat.iter k loadMore s) = Nat.iter k loadMore s).
Proof.
  split; [apply loadMore_iter_visible|].
  split; [apply loadMore_iter_filtered|].
  intros H. set (t := Nat.iter k loadMore s).
  assert (Hv : visibleCount t = length (filteredShops t)).
  { unfold t. rewrite loadMore_iter_visible, loadMore_iter_filtered.
    unfold PAGE_SIZE. lia. }
  assert (Hm : hasMoreShops t = false).
  { unfold hasMoreShops. rewrite Hv. apply Nat.ltb_irrefl. }
  split; [|split; [exact Hm | now apply loadMore_done]].
  unfold visibleShops. rewrite Hv, firstn_all. apply loadMore_iter_filtered.
Qed.

Lemma loadMore_reveals_witness :
  visibleShops (Nat.iter 2 loadMore thirty) = filteredShops thirty.
Proof.
  exact (proj1 (proj2 (proj2 (loadMore_reveals 2 thirty))
                  ltac:(vm_compute; lia))).
Defined.

(** ** The auto-load guard *)

Section Guard.

Variable localeCompare : string -> string -> Z.

Definition scrolls (nearBottoms : list bool) (s : State) : State :=
  fold_left (fun s nb => handle localeCompare (Scrolled nb) s) nearBottoms s.

Lemma maybeAutoLoad_guarded nb s : isAutoLoading s = true -> maybeAutoLoad nb s = s.
Proof. intros H. unfold maybeAutoLoad. now rewrite H. Qed.

Lemma maybeAutoLoad_cases nb s :
  maybeAutoLoad nb s = s \/
  (isAutoLoading (maybeAutoLoad nb s) = true /\
   currentPage (maybeAutoLoad nb s) = (currentPage s + 1)%nat).
Proof.
  unfold maybeAutoLoad. destruct (isAutoLoading s); [now left|].
  destruct (hasMoreShops s) eqn:Hm; [|now left].
  destruct nb; [|now left]. right. simpl.
  unfold loadMore. change (hasMoreShops (setAutoLoading true s)) with (hasMoreShops s).
  rewrite Hm. simpl. split; reflexivity.
Qed.

Lemma scrolls_guarded nbs s : isAutoLoading s = true -> scrolls nbs s = s.
Proof.
  revert s. induction nbs as [|nb l IH]; intros s H; [reflexivity|].
  unfold scrolls in *. simpl. rewrite (maybeAutoLoad_guarded _ _ H). now apply IH.
Qed.

(** The release of the guard is queued exactly when the guard is set. *)
Definition guardOk (s : State) : Prop :=
  count_occ Frame_eq_dec (frames s) ClearAutoLoading
  = if isAutoLoading s then 1%nat else 0%nat.

Lemma count_snoc_after l :
  count_occ Frame_eq_dec (l ++ [AfterRender]) ClearAutoLoading
  = count_occ Frame_eq_dec l ClearAutoLoading.
Proof. rewrite count_occ_app. simpl. lia. Qed.

Lemma guardOk_loadMore s : guardOk s -> guardOk (loadMore s).
Proof.
  unfold guardOk, loadMore. destruct (hasMoreShops s); simpl; [|auto].
  now rewrite count_snoc_after.
Qed.

Lemma guardOk_maybeAutoLoad nb s : guardOk s -> guardOk (maybeAutoLoad nb s).
Proof.
  intros H. unfold maybeAutoLoad. destruct (isAutoLoading s) eqn:Ha; [exact H|].
  destruct (hasMoreShops s) eqn:Hm; [|exact H]. destruct nb; [|exact H].
  unfold guardOk in *. simpl. rewrite Ha in H.
  unfold loadMore. change (hasMoreShops (setAutoLoading true s)) with (hasMoreShops s).
  rewrite Hm. simpl. rewrite count_occ_app, count_snoc_after, H. reflexivity.
Qed.

Lemma guardOk_ensureViewportFilled sp s :
  guardOk s -> guardOk (ensureViewportFilled sp s).
Proof.
  intros H. unfold ensureViewportFilled.
  destruct (hasMoreShops s); [|exact H]. destruct sp; [|exact H].
  now apply guardOk_loadMore.
Qed.

Lemma guardOk_refresh b s : guardOk s -> guardOk (refreshAndRender localeCompare b s).
Proof.
  unfold guardOk. destruct b; simpl; now rewrite count_snoc_after.
Qed.

Lemma guardOk_handle e s : guardOk s -> guardOk (handle localeCompare e s).
Proof.
  intros H. destruct e; simpl.
  - now apply guardOk_loadMore.
  - now apply guardOk_refresh.
  - now apply guardOk_refresh.
  - now apply guardOk_refresh.
  - now apply guardOk_refresh.
  - now apply guardOk_refresh.
  - now apply guardOk_maybeAutoLoad.
  - destruct (frames s) as [|f rest] eqn:Ef; [exact H|].
    unfold guardOk in H. rewrite Ef in H. destruct f; simpl in *.
    + apply guardOk_ensureViewportFilled, guardOk_maybeAutoLoad.
      unfold guardOk. simpl. exact H.
    + unfold guardOk. simpl. destruct (isAutoLoading s); [lia|discriminate].
Qed.

Lemma guardOk_advance x s : guardOk s -> guardOk (advance localeCompare s x).
Proof.
  intros H. destruct x; simpl.
  - now apply guardOk_handle.
  - exact H.
  - now apply guardOk_refresh.
Qed.






End Guard.

(** X12. One gesture, one page. Scroll, resize and sentinel signals that
    arrive before the next animation frame, however many and whatever they
    report, raise the page by at most one; while [isAutoLoading] is set
    they change nothing at all. *)
Theorem scroll_burst_loads_once (localeCompare : string -> string -> Z)
  (nearBottoms : list bool) (s : State) :
  (currentPage (scrolls localeCompare nearBottoms s) <= currentPage s + 1)%nat
  /\ (currentPage s <= currentPage (scrolls localeCompare nearBottoms s))%nat
  /\ (isAutoLoading s = true -> scrolls localeCompare nearBottoms s = s).
Proof.
  split; [|split; [|apply scrolls_guarded]].
  - revert s. induction nearBottoms as [|nb l IH]; intros s; [simpl; lia|].
    change (scrolls localeCompare (nb :: l) s)
      with (scrolls localeCompare l (maybeAutoLoad nb s)).
    destruct (maybeAutoLoad_cases nb s) as [->|[Ha Hp]].
    + apply IH.
    + rewrite (scrolls_guarded _ _ _ Ha). lia.
  - revert s. induction nearBottoms as [|nb l IH]; intros s; [simpl; lia|].
    change (scrolls localeCompare (nb :: l) s)
      with (scrolls localeCompare l (maybeAutoLoad nb s)).
    destruct (maybeAutoLoad_cases nb s) as [->|[Ha Hp]].
    + apply IH.
    + rewrite (scrolls_guarded _ _ _ Ha). lia.
Qed.

(** Thirty shops on page 1 while an auto-load is being processed. *)
Definition busy : State :=
  mkState (repeat demoShop 30) (repeat demoShop 30) "all" "all" "" "recent"
          1 true [] false [AfterRender; ClearAutoLoading].

Lemma scroll_burst_loads_once_witness :
  scrolls ordinalCompare [true; true; false; true] busy = busy.
Proof.
  exact (proj2 (proj2 (scroll_burst_loads_once ordinalCompare
                         [true; true; false; true] busy)) eq_refl).
Defined.

Example scroll_burst_example :
  currentPage (scrolls ordinalCompare [true; true; false; true] thirty) = 2%nat.
Proof. reflexivity. Qed.

(** X13. Throughout a session, from the first script run on and through
    [load], the guard of the auto-load path is never left set: the callback
    that clears [isAutoLoading] is in the animation-frame queue exactly
    once while the flag is set and not at all while it is clear. *)
Theorem guard_always_released (localeCompare : string -> string -> Z)
  (steps : list Step) :
  guardOk (session localeCompare steps).
Proof.
  unfold session.
  assert (H : forall s, guardOk s -> guardOk (fold_left (advance localeCompare) steps s)).
  { induction steps as [|x l IH]; intros s Hs; [exact Hs|].
    simpl. apply IH. now apply guardOk_advance. }
  apply H. reflexivity.
Qed.


End GalleryRuns.

(* ===================================================================== *)
(** * The warm-up of the first page (client) *)
(* ===================================================================== *)

Module Warmup.

Import JS ImagePreloader.

Section Batch.

Variable encodeURIComponent : string -> string.
(** [new URL(url).hostname]; [None] when the constructor throws. *)
Variable hostnameOf : string -> option string.
Variable resolveUrl : string -> string.






End Batch.






End Warmup.

(* ===================================================================== *)
(** * The dataset collaborator: reading Notion rows (server) *)
(* ===================================================================== *)

Module NotionReader.

Import JS.

(** An item of a Notion rich-text array. *)
Record RichText := mkRichText {
  plain_text : string;
  href : option string
}.

Inductive Formula :=
| FormulaString (value : option string)   (* formula.type === "string" *)
| FormulaOther.

(** A property value of a row, by its [type]; [POther] stands for the
    types the reader has no case for (number, date, checkbox, ...). *)
Inductive Property :=
| PTitle (texts : list RichText)
| PRichText (texts : list RichText)
| PUrl (link : option string)
| PSelect (name : option string)
| PMultiSelect (names : list string)
| PFormula (formula : Formula)
| POther (type : string).

Definition typeOf (p : Property) : string :=
  match p with
  | PTitle _ => "title"
  | PRichText _ => "rich_text"
  | PUrl _ => "url"
  | PSelect _ => "select"
  | PMultiSelect _ => "multi_select"
  | PFormula _ => "formula"
  | POther type => type
  end.

(** A result of [notion.databases.query]; [properties] in the order of
    [Object.entries]. *)
Record Row := mkRow {
  object : string;
  rowId : string;
  properties : list (string * Property);
  last_edited_time : Z
}.

(** [o || ""] for a string that may be null *)
Definition orEmpty (o : option string) : string := default "" o.

Definition getPlainText (richText : list RichText) : string :=
  fold_right (fun t rest => plain_text t +:+ rest) "" richText.

Definition normalize (value : string) : string := toLowerCase (trim value).

Definition hasWhitespace (value : string) : bool :=
  existsb isWhiteSpace (list_ascii_of_string value).

(** [s.split(",")] *)
Fixpoint splitComma (s : string) : list string :=
  match s with
  | EmptyString => [""]
  | String c r =>
      if Ascii.eqb c "," then "" :: splitComma r
      else match splitComma r with
           | piece :: pieces => String c piece :: pieces
           | [] => [String c ""]
           end
  end.

(** [/^https?:\/\//i.test(s)] *)
Definition hasHttpPrefix (s : string) : bool :=
  startsWith "http://" (toLowerCase s) || startsWith "https://" (toLowerCase s).

(** [s.replace(/^\/+/, "")] *)
Fixpoint stripLeadingSlashes (s : string) : string :=
  match s with
  | String c r => if Ascii.eqb c "/" then stripLeadingSlashes r else s
  | EmptyString => s
  end.

(** [s.replace(/^\?/, "")] *)
Definition stripQuestionMark (s : string) : string :=
  match s with
  | String c r => if Ascii.eqb c "?" then r else s
  | EmptyString => s
  end.

(** [s.replace(/^www\./, "")] *)
Definition stripWww (s : string) : string :=
  if startsWith "www." s then String.substring 4 (String.length s - 4) s else s.

Definition reverse (s : string) : string :=
  string_of_list_ascii (rev (list_ascii_of_string s)).

Definition endsWith (suffix s : string) : bool :=
  startsWith (reverse suffix) (reverse s).

(** [/(\.|^)builtwith\.com$/i.test(hostname)] *)
Definition isBuiltWithHost (hostname : string) : bool :=
  let h := toLowerCase hostname in
  String.eqb h "builtwith.com" || endsWith ".builtwith.com" h.

(** What the program reads off a [URL] object. *)
Record Url := mkUrl {
  protocol : string;
  urlHref : string;      (* parsed.toString() *)
  hostname : string;
  search : string
}.

Section Reader.

(** [new URL(s)]; [None] when the constructor throws. *)
Variable parseUrl : string -> option Url.
(** [decodeURIComponent(s)]; [None] when it throws. *)
Variable decodeURIComponent : string -> option string.

Definition normalizeCandidateUrl (value : string) : string :=
  let raw := trim value in
  if negb (truthyStr raw) then ""
  else if hasHttpPrefix raw then
    match parseUrl raw with
    | Some parsed =>
        if String.eqb (protocol parsed) "http:" || String.eqb (protocol parsed) "https:"
        then urlHref parsed else ""
    | None => ""
    end
  else if hasWhitespace raw then ""
  else if negb (includes "." raw) then ""
  else
    match parseUrl ("https://" +:+ stripLeadingSlashes raw) with
    | Some parsed => urlHref parsed
    | None => ""
    end.

Definition readTitle (property : option Property) : string :=
  match property with
  | Some (PTitle texts) => getPlainText texts
  | Some (PRichText texts) => getPlainText texts
  | _ => "Untitled"
  end.

(** [texts.map((t) => t.href).find(Boolean) || ""] *)
Definition firstHref (texts : list RichText) : string :=
  orEmpty (List.find truthyStr (List.map (fun t => orEmpty (href t)) texts)).

Definition readUrlFromTexts (texts : list RichText) : string :=
  let direct := normalizeCandidateUrl (trim (getPlainText texts)) in
  if truthyStr direct then direct
  else normalizeCandidateUrl (firstHref texts).

Definition readUrl (property : option Property) : string :=
  match property with
  | Some (PUrl link) => normalizeCandidateUrl (orEmpty link)
  | Some (PRichText texts) => readUrlFromTexts texts
  | Some (PTitle texts) => readUrlFromTexts texts
  | Some (PFormula (FormulaString value)) => normalizeCandidateUrl (orEmpty value)
  | _ => ""
  end.

Definition normalizeWebsiteUrl (value : string) : string :=
  normalizeCandidateUrl value.

Definition unwrapBuiltWithUrl (value : string) : string :=
  let raw := trim value in
  if negb (truthyStr raw) then raw
  else
    match parseUrl raw with
    | None => raw
    | Some parsed =>
        if negb (isBuiltWithHost (hostname parsed)) then raw
        else
          match decodeURIComponent (trim (stripQuestionMark (search parsed))) with
          | None => raw
          | Some maybeTarget =>
              if hasHttpPrefix maybeTarget then maybeTarget else raw
          end
    end.

Definition readTags (property : option Property) : list string :=
  match property with
  | Some (PMultiSelect names) => List.filter truthyStr names
  | Some (PSelect (Some name)) => if truthyStr name then [name] else []
  | Some (PRichText texts) =>
      List.filter truthyStr (List.map trim (splitComma (getPlainText texts)))
  | _ => []
  end.

Definition readCategory (property : option Property) : string :=
  match property with
  | Some (PSelect name) => orEmpty name
  | Some (PMultiSelect names) => hd "" names
  | Some (PRichText texts) => trim (hd "" (splitComma (getPlainText texts)))
  | _ => ""
  end.

Definition readNotes (property : option Property) : string :=
  match property with
  | Some (PRichText texts) => getPlainText texts
  | Some (PTitle texts) => getPlainText texts
  | Some (PFormula (FormulaString value)) => orEmpty value
  | _ => ""
  end.

Definition isSome {A} (o : option A) : bool :=
  match o with Some _ => true | None => false end.

Definition includesStr (x : string) (l : list string) : bool :=
  existsb (String.eqb x) l.

Definition firstPropertyByType (props : list (string * Property))
  (acceptedTypes : list string) : option Property :=
  List.find (fun property => includesStr (typeOf property) acceptedTypes)
            (List.map snd props).

(** [byName.get(key)] for [byName = new Map(entries.map(...))]: the entry
    set last under a key is the one the map holds. *)
Definition byNameGet (props : list (string * Property)) (key : string)
  : option Property :=
  snd <$> List.find (fun entry => String.eqb (normalize (fst entry)) key) (rev props).

Definition findProperty (props : list (string * Property)) (preferredName : string)
  (acceptedTypes preferredNames : list string) : option Property :=
  let byPreferred :=
    if truthyStr preferredName then byNameGet props (normalize preferredName)
    else None in
  match byPreferred with
  | Some property => Some property
  | None =>
      match List.find (fun name => isSome (byNameGet props name))
                      (List.map normalize preferredNames) with
      | Some name => byNameGet props name
      | None => firstPropertyByType props acceptedTypes
      end
  end.

Definition findUrlFromAnyProperty (props : list (string * Property)) : string :=
  orEmpty (List.find truthyStr (List.map (fun entry => readUrl (Some (snd entry))) props)).

(** [propertyMap] *)
Record PropertyMap := mkPropertyMap {
  nameProp : string;
  urlProp : string;
  categoryProp : string;
  tagsProp : string;
  notesProp : string
}.

Variable propertyMap : PropertyMap.

(** The callback of [pageRows.map(...)]. *)
Definition toItem (row : Row) : ShopRecord :=
  let props := properties row in
  let titleProp := findProperty props (nameProp propertyMap)
                     ["title"; "rich_text"] ["name"; "title"; "shop"; "store"] in
  let urlProp := findProperty props (urlProp propertyMap)
                   ["url"; "rich_text"; "formula"]
                   ["url"; "website"; "link"; "site"; "shop url"] in
  let tagsProp := findProperty props (tagsProp propertyMap)
                    ["multi_select"; "select"; "rich_text"]
                    ["tags"; "tags/categories"; "tag"; "topics"; "labels"; "keywords"] in
  let categoryProp := findProperty props (categoryProp propertyMap)
                        ["select"; "multi_select"; "rich_text"]
                        ["category/type"; "category"; "type"; "categories"] in
  let notesProp := findProperty props (notesProp propertyMap)
                     ["rich_text"; "title"; "formula"]
                     ["description/notes/summary"; "description"; "notes"; "summary";
                      "blurb"] in
  let explicitUrl := readUrl urlProp in
  let fallbackUrl := if truthyStr explicitUrl then "" else findUrlFromAnyProperty props in
  let url := unwrapBuiltWithUrl
               (normalizeWebsiteUrl (if truthyStr explicitUrl then explicitUrl
                                     else fallbackUrl)) in
  let parsedHost := match parseUrl url with
                    | Some parsed => stripWww (hostname parsed)
                    | None => ""
                    end in
  let title :=
    let t := trim (readTitle titleProp) in
    if truthyStr t then t else if truthyStr parsedHost then parsedHost else "Untitled" in
  mkShopRecord (rowId row) title url (readCategory categoryProp) (readTags tagsProp)
               (readNotes notesProp) (last_edited_time row).

(** What [fetchShopsFromNotion] makes of the rows the paginated query
    collected. *)
Definition summarize (results : list Row) : Notion.Data :=
  let pageRows := List.filter (fun row => String.eqb (object row) "page") results in
  let items := List.filter (fun item : ShopRecord => truthyStr (url item))
                           (List.map toItem pageRows) in
  Notion.mkData items (length pageRows) (length items).

(** [fetchShopsFromNotion]; [collected] is what its query loop ends in:
    the rows of all pages, or the error a query threw. *)
Definition fetchShopsFromNotion (notionApiKey databaseId : option string)
  (collected : Outcome (list Row)) : Outcome Notion.Data :=
  if negb (truthyStr (orEmpty notionApiKey)) then Throw "NOTION_API_KEY is missing."
  else if negb (truthyStr (orEmpty databaseId)) then Throw "NOTION_DATABASE_ID is missing."
  else results ← collected; mret (summarize results).

End Reader.

(** ** Tags *)

(** [names.join(",")] *)
Fixpoint joinComma (names : list string) : string :=
  match names with
  | [] => ""
  | [name] => name
  | name :: rest => name +:+ "," +:+ joinComma rest
  end.

Definition commaFree (s : string) : Prop :=
  ~ In ","%char (list_ascii_of_string s).

Lemma splitComma_nonempty s : splitComma s <> [].
Proof.
  induction s as [|c r IH]; simpl; [discriminate|].
  destruct (Ascii.eqb c ","); [discriminate|].
  destruct (splitComma r); [contradiction|discriminate].
Qed.

Lemma splitComma_piece a rest :
  commaFree a -> splitComma (a +:+ "," +:+ rest) = a :: splitComma rest.
Proof.
  unfold commaFree. induction a as [|c a IH]; simpl; intros H; [reflexivity|].
  destruct (Ascii.eqb_spec c ","%char) as [->|Hc]; [exfalso; apply H; now left|].
  rewrite IH by (intros Hin; apply H; now right). reflexivity.
Qed.

Lemma splitComma_last a : commaFree a -> splitComma a = [a].
Proof.
  unfold commaFree. induction a as [|c a IH]; simpl; intros H; [reflexivity|].
  destruct (Ascii.eqb_spec c ","%char) as [->|Hc]; [exfalso; apply H; now left|].
  rewrite IH by (intros Hin; apply H; now right). reflexivity.
Qed.

Lemma splitComma_join names :
  names <> [] -> Forall commaFree names -> splitComma (joinComma names) = names.
Proof.
  induction names as [|a rest IH]; intros Hne Hall; [contradiction|].
  inversion Hall as [|? ? Ha Hrest]; subst.
  destruct rest as [|b rest]; [now apply splitComma_last|].
  change (joinComma (a :: b :: rest)) with (a +:+ "," +:+ joinComma (b :: rest)).
  rewrite splitComma_piece by exact Ha. f_equal. now apply IH.
Qed.

Lemma append_empty_r s : s +:+ "" = s.
Proof.
  induction s as [|c r IH]; [reflexivity|].
  change (String c (r +:+ "") = String c r). now rewrite IH.
Qed.

Lemma getPlainText_single text link : getPlainText [mkRichText text link] = text.
Proof. unfold getPlainText. simpl. apply append_empty_r. Qed.

Lemma filter_keeps_all {A} (f : A -> bool) l :
  Forall (fun x => f x = true) l -> List.filter f l = l.
Proof.
  induction 1 as [|x l Hx _ IH]; simpl; [reflexivity|]. now rewrite Hx, IH.
Qed.

(** X16. [readTags] never returns an empty tag, whatever the property;
    tags read from comma-separated text are trimmed and hold more than
    white space; and the reading inverts the writing: for names that are
    trimmed, non-empty and free of commas, the text of the names joined by
    commas reads back as exactly those names. *)
Theorem readTags_clean (property : option Property) (names : list string)
  (link : option string) :
  Forall (fun tag => tag <> "") (readTags property)
  /\ (forall texts, property = Some (PRichText texts) ->
       Forall (fun tag => whitespaceOnly tag = false /\ trim tag = tag)
              (readTags property))
  /\ (Forall (fun name => name <> "" /\ trim name = name /\ commaFree name) names ->
      readTags (Some (PRichText [mkRichText (joinComma names) link])) = names).
Proof.
  assert (Hf : forall l, Forall (fun tag => tag <> "") (List.filter truthyStr l)).
  { intros l. apply List.Forall_forall. intros x Hx. apply filter_In in Hx.
    now apply Facets.truthyStr_iff. }
  split; [|split].
  - destruct property as [[texts|texts|?|[name|]|names'|?|?]|]; simpl;
      try constructor; try apply Hf.
    destruct (truthyStr name) eqn:E; constructor; [|constructor].
    now apply Facets.truthyStr_iff.
  - intros texts ->. simpl. apply List.Forall_forall. intros x Hx.
    apply filter_In in Hx. destruct Hx as [Hx Ht].
    apply in_map_iff in Hx. destruct Hx as (piece & <- & _).
    split; [now apply trim_not_blank | apply Facets.trim_idem].
  - intros Hall. unfold readTags. rewrite getPlainText_single.
    destruct names as [|a rest]; [reflexivity|].
    rewrite splitComma_join; [|discriminate|].
    + assert (E : List.map trim (a :: rest) = a :: rest).
      { clear Hf. induction Hall as [|x l (_ & Hx & _) _ IH]; simpl; [reflexivity|].
        now rewrite Hx, IH. }
      rewrite E. apply filter_keeps_all.
      eapply List.Forall_impl; [|exact Hall].
      intros x (Hx & _ & _). now apply Facets.truthyStr_iff.
    + eapply List.Forall_impl; [|exact Hall]. now intros x (_ & _ & Hx).
Qed.

Lemma readTags_clean_witness :
  readTags (Some (PRichText [mkRichText (joinComma ["motion"; "3d type"; "grid"]) None]))
  = ["motion"; "3d type"; "grid"].
Proof.
  exact (proj2 (proj2 (readTags_clean None ["motion"; "3d type"; "grid"] None))
           ltac:(repeat constructor; try discriminate;
                 intros H; vm_compute in H; intuition discriminate)).
Defined.

(** ** Finding a property *)

Section Finding.

Variable props : list (string * Property).

Lemma byNameGet_In key v :
  byNameGet props key = Some v ->
  exists name, In (name, v) props /\ normalize name = key.
Proof.
  unfold byNameGet. destruct (List.find _ (rev props)) as [[name v']|] eqn:E;
    [|discriminate].
  simpl. intros H. injection H as <-. apply find_some in E. destruct E as [Hin He].
  exists name. split; [now apply in_rev in Hin|]. now apply String.eqb_eq in He.
Qed.

Lemma byNameGet_found name v :
  In (name, v) props -> exists v', byNameGet props (normalize name) = Some v'.
Proof.
  intros Hin. unfold byNameGet.
  destruct (List.find _ (rev props)) as [[n v']|] eqn:E; [now exists v'|].
  exfalso. apply in_rev in Hin.
  pose proof (find_none _ _ E (name, v) Hin) as F. simpl in F.
  rewrite String.eqb_refl in F. discriminate.
Qed.

End Finding.

(** X17. [findProperty] looks a property up by name before anything
    else: when the configured name is not empty and some property of the
    row carries it (trimmed, in any case), the result is a property of the
    row under that name, whatever its type; in every case a result is one
    of the row's own properties; and nothing is returned only when no
    property has an accepted type. *)
Theorem findProperty_by_name (props : list (string * Property))
  (preferredName : string) (acceptedTypes preferredNames : list string) :
  (forall name v, preferredName <> "" -> In (name, v) props ->
     normalize name = normalize preferredName ->
     exists name' v',
       findProperty props preferredName acceptedTypes preferredNames = Some v' /\
       In (name', v') props /\ normalize name' = normalize preferredName)
  /\ (forall v,
       findProperty props preferredName acceptedTypes preferredNames = Some v ->
       In v (List.map snd props))
  /\ (findProperty props preferredName acceptedTypes preferredNames = None ->
      forall name v, In (name, v) props ->
        includesStr (typeOf v) acceptedTypes = false).
Proof.
  split; [|split].
  - intros name v Hne Hin Hn. unfold findProperty.
    apply Facets.truthyStr_iff in Hne. rewrite Hne.
    destruct (byNameGet_found props name v Hin) as [v' Hv']. rewrite Hn in Hv'.
    rewrite Hv'. destruct (byNameGet_In props _ _ Hv') as (name' & H1 & H2).
    now exists name', v'.
  - intros v. unfold findProperty.
    assert (Hby : forall key, byNameGet props key = Some v -> In v (List.map snd props)).
    { intros key Hk. destruct (byNameGet_In props _ _ Hk) as (name & H1 & _).
      apply in_map_iff. now exists (name, v). }
    destruct (if truthyStr preferredName then _ else None) as [v0|] eqn:E0.
    + intros H. injection H as <-.
      destruct (truthyStr preferredName); [|discriminate]. now apply (Hby _ E0).
    + destruct (List.find _ (List.map normalize preferredNames)) as [key|].
      * apply Hby.
      * unfold firstPropertyByType. intros H. now apply find_some in H.
  - unfold findProperty.
    destruct (if truthyStr preferredName then _ else None); [discriminate|].
    destruct (List.find _ (List.map normalize preferredNames)) as [key|] eqn:Ek.
    + apply find_some in Ek. destruct Ek as [_ Ek]. intros H. rewrite H in Ek.
      discriminate.
    + unfold firstPropertyByType. intros H name v Hin.
      apply (find_none _ _ H v). apply in_map_iff. now exists (name, v).
Qed.

Lemma findProperty_by_name_witness :
  exists name' v',
    findProperty [("Name", PTitle []); (" website ", PRichText []); ("Link", PUrl None)]
                 "Website" ["url"] ["url"; "link"] = Some v' /\
    In (name', v') [("Name", PTitle []); (" website ", PRichText []); ("Link", PUrl None)]
    /\ normalize name' = normalize "Website".
Proof.
  exact (proj1 (findProperty_by_name
                  [("Name", PTitle []); (" website ", PRichText []); ("Link", PUrl None)]
                  "Website" ["url"] ["url"; "link"])
           " website " (PRichText []) ltac:(discriminate)
           ltac:(right; left; reflexivity) eq_refl).
Defined.

(** ** Rows to items to payload *)

(** X18. Of the rows a query returned, only page rows become items and
    only those with a URL: every item has a non-empty URL and a non-empty
    title and takes its id and edit time from a page row;
    [shopsWithUrl] is the number of items and is at most [totalRows], the
    number of page rows; and the payload built from them reports
    [count = shopsWithUrl <= totalRows]. *)
Theorem rows_to_payload (parseUrl : string -> option Url)
  (decodeURIComponent : string -> option string) (propertyMap : PropertyMap)
  (localeCompare : string -> string -> Z) (encodeURIComponent : string -> string)
  (db : string) (results : list Row) :
  let data := summarize parseUrl decodeURIComponent propertyMap results in
  let p := DatasetCache.buildShopsPayloadFrom localeCompare encodeURIComponent db data in
  Forall (fun item : ShopRecord =>
            url item <> "" /\ title item <> "" /\
            exists row, In row results /\ object row = "page" /\
                        shopId item = rowId row /\
                        editedAt item = last_edited_time row)
         (Notion.items data)
  /\ Notion.shopsWithUrl data = length (Notion.items data)
  /\ (Notion.shopsWithUrl data <= Notion.totalRows data <= length results)%nat
  /\ DatasetCache.count p = DatasetCache.shopsWithUrl p
  /\ (DatasetCache.count p <= DatasetCache.totalRows p)%nat.
Proof.
  intros data p.
  assert (Hlen : (Notion.shopsWithUrl data <= Notion.totalRows data)%nat).
  { unfold data, summarize. simpl.
    etransitivity; [apply filter_length_le|]. now rewrite length_map. }
  split; [|split; [reflexivity|split; [split; [exact Hlen|]|split]]].
  - apply List.Forall_forall. intros item Hin. unfold data, summarize in Hin.
    simpl in Hin. apply filter_In in Hin. destruct Hin as [Hin Hu].
    apply in_map_iff in Hin. destruct Hin as (row & <- & Hrow).
    apply filter_In in Hrow. destruct Hrow as [Hrow Hpage].
    split; [now apply Facets.truthyStr_iff|]. split.
    + unfold toItem. simpl.
      destruct (truthyStr (trim _)) eqn:E1; [now apply Facets.truthyStr_iff|].
      destruct (truthyStr (match parseUrl _ with Some _ => _ | None => _ end)) eqn:E2;
        [now apply Facets.truthyStr_iff | discriminate].
    + exists row. repeat split; [exact Hrow | now apply String.eqb_eq].
  - unfold data, summarize. simpl. apply filter_length_le.
  - unfold p, DatasetCache.buildShopsPayloadFrom. simpl. now rewrite length_map.
  - unfold p, DatasetCache.buildShopsPayloadFrom. simpl. rewrite length_map.
    exact Hlen.
Qed.

End NotionReader.
